(** * log-factory: option resolution and transport assembly

    A shallow embedding of [src/utils.ts], [src/log-facotry.ts] (the
    logger factory built on winston) and [src/utils/tryCatchWrapper.ts],
    together with the parts of the Node.js runtime the factory calls:
    [path.posix] (string functions, transcribed from Node's [lib/path.js])
    and the [fs]/[process]/[console] calls, which are threaded through an
    explicit world and an effect trace.  The transport constructors of
    winston are calls into the library that may throw: their outcome is
    part of the world.

    Conventions.
    - JavaScript strings are [string]; the path functions only inspect the
      characters ['/'] and ['.'], so the 8-bit alphabet loses nothing.
    - JavaScript numbers that carry byte counts and file counts are [Z].
      Multiplying by 1024 is exact on doubles short of overflow, so the
      integer model agrees with the engine on every integral size whose
      byte count is finite ([finiteMB]); beyond it the engine computes
      [Infinity].
    - An optional property of an options object has three states
      ([Absent], [Undefined], [Value v]); object spread and [??] are written
      out on them. *)

From Stdlib Require Import Bool Arith ZArith Lia List Ascii String.
Import ListNotations.

Local Open Scope list_scope.
Local Open Scope string_scope.
Local Open Scope nat_scope.

Set Warnings "-register-all".

(* ================================================================== *)
(** ** JavaScript string primitives used by the sources *)
(* ================================================================== *)

Module Js.

(** [s.length] *)
Definition len (s : string) : nat := String.length s.

(** [s.charCodeAt(i)], [None] standing for NaN when out of range. *)
Definition charAt (s : string) (i : nat) : option ascii := String.get i s.

(** [s.slice(a, b)] for [0 <= a <= b]. *)
Definition slice (s : string) (a b : nat) : string :=
  String.substring a (b - a) s.

(** [s.lastIndexOf(c)]: index of the last occurrence, [-1] when none. *)
Fixpoint lastIndexOf (s : string) (c : ascii) : Z :=
  match s with
  | EmptyString => (-1)%Z
  | String a s' =>
      let r := lastIndexOf s' c in
      if (0 <=? r)%Z then (r + 1)%Z
      else if Ascii.eqb a c then 0%Z else (-1)%Z
  end.

(** [s.startsWith(p)] *)
Definition startsWith (s p : string) : bool := String.prefix p s.

(** [xs.join(sep)] *)
Fixpoint join (sep : string) (xs : list string) : string :=
  match xs with
  | [] => ""
  | [x] => x
  | x :: rest => x ++ sep ++ join sep rest
  end.

(** [s.includes(sub)], as a proposition. *)
Definition Includes (s sub : string) : Prop :=
  exists pre post, s = pre ++ sub ++ post.

End Js.

(* ================================================================== *)
(** ** Node's [path] module (POSIX flavour; [path.win32] is not modelled) *)
(* ================================================================== *)

Module path.

Definition CHAR_FORWARD_SLASH : ascii := "/"%char.
Definition CHAR_DOT : ascii := "."%char.

Definition isPosixPathSeparator (code : ascii) : bool :=
  Ascii.eqb code CHAR_FORWARD_SLASH.

(** The loop variables of [normalizeString].  The source keeps the
    indices [i] and [lastSlash]; the loop only ever uses them through
    [path.slice(lastSlash + 1, i)] and the test [lastSlash === i - 1],
    so the state carries that slice ([seg]) instead: the test is
    [seg = ""], and [i - lastSlash - 1] is its length. *)
Record nstate : Type := {
  res : string;
  lastSegmentLength : nat;
  seg : string;
  dots : Z;
  code : ascii
}.

Definition nstate0 : nstate :=
  {| res := ""; lastSegmentLength := 0; seg := ""; dots := 0%Z;
     code := Ascii.zero |}.

(** The test guarding the "pop" of a [..] segment: the last segment of
    [res] is not itself [..]. *)
Definition lastIsNotDotDot (st : nstate) : bool :=
  let n := Js.len (res st) in
  (n <? 2)
  || negb (lastSegmentLength st =? 2)
  || negb (match Js.charAt (res st) (n - 1) with
           | Some c => Ascii.eqb c CHAR_DOT | None => false end)
  || negb (match Js.charAt (res st) (n - 2) with
           | Some c => Ascii.eqb c CHAR_DOT | None => false end).

(** [lastSlash = i; dots = 0] *)
Definition resetSeg (st : nstate) (r : string) (l : nat) : nstate :=
  {| res := r; lastSegmentLength := l; seg := ""; dots := 0%Z;
     code := code st |}.

(** Body of the loop when the current character is a separator. *)
Definition onSeparator (allowAboveRoot : bool) (st : nstate) : nstate :=
  let appendDotDot :=
    if allowAboveRoot
    then resetSeg st (if 0 <? Js.len (res st)
                      then res st ++ "/.." else "..") 2
    else resetSeg st (res st) (lastSegmentLength st) in
  if (seg st =? "")%string || (dots st =? 1)%Z then
    resetSeg st (res st) (lastSegmentLength st)
  else if (dots st =? 2)%Z then
    if lastIsNotDotDot st then
      if 2 <? Js.len (res st) then
        let lastSlashIndex := Js.lastIndexOf (res st) CHAR_FORWARD_SLASH in
        if (lastSlashIndex =? -1)%Z then resetSeg st "" 0
        else
          let r := Js.slice (res st) 0 (Z.to_nat lastSlashIndex) in
          resetSeg st r
            (Z.to_nat (Z.of_nat (Js.len r) - 1
                       - Js.lastIndexOf r CHAR_FORWARD_SLASH))
      else if negb (Js.len (res st) =? 0) then resetSeg st "" 0
      else appendDotDot
    else appendDotDot
  else
    resetSeg st
      (if 0 <? Js.len (res st) then res st ++ "/" ++ seg st else seg st)
      (Js.len (seg st)).

(** One iteration of the loop for [i < path.length]. *)
Definition nstep (allowAboveRoot : bool) (st : nstate) (c : ascii) : nstate :=
  let st := {| res := res st; lastSegmentLength := lastSegmentLength st;
               seg := seg st; dots := dots st; code := c |} in
  if isPosixPathSeparator c then onSeparator allowAboveRoot st
  else if Ascii.eqb c CHAR_DOT && negb (dots st =? -1)%Z then
    {| res := res st; lastSegmentLength := lastSegmentLength st;
       seg := seg st ++ String c ""; dots := (dots st + 1)%Z; code := c |}
  else
    {| res := res st; lastSegmentLength := lastSegmentLength st;
       seg := seg st ++ String c ""; dots := (-1)%Z; code := c |}.

(** The iteration [i = path.length]: stop after a separator, otherwise
    act as if one more ['/'] had been read. *)
Definition nfinish (allowAboveRoot : bool) (st : nstate) : nstate :=
  if isPosixPathSeparator (code st) then st
  else onSeparator allowAboveRoot st.

Fixpoint nloop (allowAboveRoot : bool) (st : nstate) (p : string) : nstate :=
  match p with
  | EmptyString => nfinish allowAboveRoot st
  | String c p' => nloop allowAboveRoot (nstep allowAboveRoot st c) p'
  end.

Definition normalizeString (p : string) (allowAboveRoot : bool) : string :=
  res (nloop allowAboveRoot nstate0 p).

Definition firstIsSlash (p : string) : bool :=
  match p with
  | String c _ => Ascii.eqb c CHAR_FORWARD_SLASH
  | EmptyString => false
  end.

Definition lastIsSlash (p : string) : bool :=
  match Js.charAt p (Js.len p - 1) with
  | Some c => Ascii.eqb c CHAR_FORWARD_SLASH
  | None => false
  end.

(** [path.isAbsolute] *)
Definition isAbsolute (p : string) : bool :=
  (0 <? Js.len p) && firstIsSlash p.

(** [path.normalize] *)
Definition normalize (p : string) : string :=
  if Js.len p =? 0 then "."
  else
    let isAbs := firstIsSlash p in
    let trailingSeparator := lastIsSlash p in
    let p' := normalizeString p (negb isAbs) in
    if Js.len p' =? 0 then
      if isAbs then "/" else if trailingSeparator then "./" else "."
    else
      let p'' := if trailingSeparator then p' ++ "/" else p' in
      if isAbs then "/" ++ p'' else p''.

(** [path.join(...args)] *)
Fixpoint joinArgs (joined : option string) (args : list string)
  : option string :=
  match args with
  | [] => joined
  | arg :: rest =>
      if 0 <? Js.len arg then
        joinArgs (match joined with
                  | None => Some arg
                  | Some j => Some (j ++ "/" ++ arg)
                  end) rest
      else joinArgs joined rest
  end.

Definition join (args : list string) : string :=
  match joinArgs None args with
  | None => "."
  | Some joined => normalize joined
  end.

(** The loop of [path.resolve], from the last argument down to the
    first; [resolveArgs] receives the arguments reversed. *)
Fixpoint resolveArgs (revArgs : list string) (resolvedPath : string)
  : string * bool :=
  match revArgs with
  | [] => (resolvedPath, false)
  | p :: rest =>
      if Js.len p =? 0 then resolveArgs rest resolvedPath
      else
        let resolvedPath := p ++ "/" ++ resolvedPath in
        if firstIsSlash p then (resolvedPath, true)
        else resolveArgs rest resolvedPath
  end.

(** [path.resolve(...args)]; [cwd] is what [process.cwd()] returns, read
    as the implicit first argument when no argument is absolute. *)
Definition resolve (cwd : string) (args : list string) : string :=
  let '(resolvedPath, resolvedAbsolute) :=
    resolveArgs (rev (cwd :: args)) "" in
  let resolvedPath := normalizeString resolvedPath (negb resolvedAbsolute) in
  if resolvedAbsolute then "/" ++ resolvedPath
  else if 0 <? Js.len resolvedPath then resolvedPath else ".".

End path.

(* ================================================================== *)
(** ** Exceptions, effects and the ambient process *)
(* ================================================================== *)

(** What a [throw] carries: an [Error] object with its message; any
    other thrown value that [String(...)] renders (kept as that
    rendering); or a value on which the conversion
    [error instanceof Error ? ... : String(error)] itself throws [raised],
    as [String] does with a [TypeError] on an object without primitive
    conversion. *)
Inductive Exception : Type :=
  | Error (message : string)
  | Thrown (rendering : string)
  | Unprintable (raised : Exception).

Inductive completion (A : Type) : Type :=
  | Return (a : A)
  | Throw (e : Exception).
Arguments Return {A} a.
Arguments Throw {A} e.

(** The calls the factory itself makes on [console] and [fs].  What the
    constructors of winston do inside (opening files, creating
    directories) is not part of a trace. *)
Inductive Effect : Type :=
  | ConsoleWarn (text : string)
  | ConsoleError (text : string)
  | MkdirSync (dir : string) (recursive : bool) (mode : N).

(** Computations that log effects and may throw. *)
Definition IO (A : Type) : Type := (list Effect * completion A)%type.

Definition ret {A} (a : A) : IO A := ([], Return a).
Definition throw {A} (e : Exception) : IO A := ([], Throw e).
Definition emit (eff : Effect) : IO unit := ([eff], Return tt).
Definition lift {A} (c : completion A) : IO A := ([], c).

Definition bind {A B} (m : IO A) (k : A -> IO B) : IO B :=
  match m with
  | (t, Return a) => let '(t', r) := k a in ((t ++ t')%list, r)
  | (t, Throw e) => (t, Throw e)
  end.

(** [try { m } catch (error) { handler error }] *)
Definition tryCatch {A} (m : IO A) (handler : Exception -> IO A) : IO A :=
  match m with
  | (t, Throw e) => let '(t', r) := handler e in ((t ++ t')%list, r)
  | (t, Return a) => (t, Return a)
  end.

Declare Scope io_scope.
Delimit Scope io_scope with io.
Notation "x <- m ;; k" := (bind m (fun x => k))
  (at level 61, m at next level, right associativity) : io_scope.
Notation "m ;;; k" := (bind m (fun _ => k))
  (at level 61, right associativity) : io_scope.

(* ================================================================== *)
(** ** [src/types.ts] *)
(* ================================================================== *)

Definition SafePath : Type := string.
Definition Bytes : Type := Z.

Inductive LogLevel : Type :=
  | error | debug | warn | data | info | verbose | silly.

Definition LogLevelValue (l : LogLevel) : Z :=
  match l with
  | error => 0 | debug => 1 | warn => 2 | data => 3
  | info => 4 | verbose => 5 | silly => 6
  end%Z.

Inductive Environment : Type := development | production | test.

Definition Environment_name (e : Environment) : string :=
  match e with
  | development => "development"
  | production => "production"
  | test => "test"
  end.

(** An optional property of an object: not an own property, an own
    property holding [undefined], or an own property holding a value.
    ([null] is excluded by the declared types.) *)
Inductive field (A : Type) : Type :=
  | Absent
  | Undefined
  | Value (a : A).
Arguments Absent {A}.
Arguments Undefined {A}.
Arguments Value {A} a.

(** Reading a property: [o.k]; [None] is [undefined]. *)
Definition read {A} (f : field A) : option A :=
  match f with Value a => Some a | _ => None end.

(** One property of [{...base, ...over}]. *)
Definition spread {A} (base over : field A) : field A :=
  match over with Absent => base | _ => over end.

(** [x ?? d] on a property that was read. *)
Definition nullish {A} (x : option A) (d : A) : A :=
  match x with Some a => a | None => d end.

(** Truthiness of a boolean-or-undefined and of a string-or-undefined. *)
Definition truthy (x : option bool) : bool :=
  match x with Some b => b | None => false end.

Definition truthyString (x : option string) : bool :=
  match x with Some s => negb (s =? "")%string | None => false end.

(** The part of winston the factory configures: formats and transports
    are kept as descriptions of the constructor calls. *)
Module winston.

Inductive Format : Type :=
  | simple                              (* winston.format.simple() *)
  | colorizeAll                         (* winston.format.colorize({ all: true }) *)
  | printfMessage                       (* printf(info => String(info.message)) *)
  | pretty                              (* prettyConsoleFormat *)
  | timestampLocale (locale : string)   (* dateFormat *)
  | printfFileLine                      (* printf: timestamp LEVEL: message *)
  | combine (formats : list Format)     (* winston.format.combine(...) *)
  | userFormat (id : nat).              (* a format object of the caller *)

Record BaseFileOptions : Type := {
  maxsize : option Bytes;
  maxFiles : option Z;
  format : Format;
  zippedArchive : bool;
  tailable : bool
}.

Inductive transport : Type :=
  | Console (fmt : Format)
  | File (base : BaseFileOptions) (filename : string)
         (level : option LogLevel)
  | DailyRotateFile (base : BaseFileOptions) (filename : string)
                    (datePattern : string)
  | userTransport (id : nat).

Record Logger : Type := {
  levels : LogLevel -> Z;
  level : LogLevel;
  silent : option bool;
  handleExceptions : option bool;
  handleRejections : option bool;
  transports : list transport;
  loggerFormat : Format
}.

End winston.

(** The process the factory runs in: [process.env.NODE_ENV],
    [process.cwd()] (an absolute path, as [getcwd] returns it), the
    answers of [fs.existsSync] and [fs.mkdirSync] ([None]: the directory
    was created), and the outcome of a transport constructor of winston
    on its options ([None]: the transport was constructed). *)
Record World : Type := {
  NODE_ENV : option string;
  cwd : string;
  cwd_absolute : path.firstIsSlash cwd = true;
  existsSync : string -> bool;
  mkdirSync : string -> option Exception;
  construct : winston.transport -> option Exception
}.

Record LoggerOptions : Type := {
  logName : field string;
  level : field LogLevel;
  logDirectory : field string;
  enableFileLogging : field bool;
  maxFileSize : field Bytes;
  maxFiles : field Z;
  separateErrorLog : field bool;
  separateWarnLog : field bool;
  useDailyRotation : field bool;
  enableConsoleLogging : field bool;
  prettyPrint : field bool;
  colorize : field bool;
  timestampFormat : field string;
  locale : field string;
  silent : field bool;
  handleExceptions : field bool;
  handleRejections : field bool;
  customTransports : field (list winston.transport);
  customFormat : field winston.Format
}.


(** The object literal [{}]. *)
Definition emptyOptions : LoggerOptions :=
  {| logName := Absent; level := Absent; logDirectory := Absent;
     enableFileLogging := Absent; maxFileSize := Absent; maxFiles := Absent;
     separateErrorLog := Absent; separateWarnLog := Absent;
     useDailyRotation := Absent; enableConsoleLogging := Absent;
     prettyPrint := Absent; colorize := Absent; timestampFormat := Absent;
     locale := Absent; silent := Absent; handleExceptions := Absent;
     handleRejections := Absent; customTransports := Absent;
     customFormat := Absent |}.

(** [{...a, ...b}] *)
Definition spreadOptions (a b : LoggerOptions) : LoggerOptions :=
  {| logName := spread (logName a) (logName b);
     level := spread (level a) (level b);
     logDirectory := spread (logDirectory a) (logDirectory b);
     enableFileLogging := spread (enableFileLogging a) (enableFileLogging b);
     maxFileSize := spread (maxFileSize a) (maxFileSize b);
     maxFiles := spread (maxFiles a) (maxFiles b);
     separateErrorLog := spread (separateErrorLog a) (separateErrorLog b);
     separateWarnLog := spread (separateWarnLog a) (separateWarnLog b);
     useDailyRotation := spread (useDailyRotation a) (useDailyRotation b);
     enableConsoleLogging :=
       spread (enableConsoleLogging a) (enableConsoleLogging b);
     prettyPrint := spread (prettyPrint a) (prettyPrint b);
     colorize := spread (colorize a) (colorize b);
     timestampFormat := spread (timestampFormat a) (timestampFormat b);
     locale := spread (locale a) (locale b);
     silent := spread (silent a) (silent b);
     handleExceptions := spread (handleExceptions a) (handleExceptions b);
     handleRejections := spread (handleRejections a) (handleRejections b);
     customTransports := spread (customTransports a) (customTransports b);
     customFormat := spread (customFormat a) (customFormat b) |}.

(** Property names of an options object, and untyped access by name. *)
Inductive Key : Type :=
  | K_logName | K_level | K_logDirectory | K_enableFileLogging
  | K_maxFileSize | K_maxFiles | K_separateErrorLog | K_separateWarnLog
  | K_useDailyRotation | K_enableConsoleLogging | K_prettyPrint
  | K_colorize | K_timestampFormat | K_locale | K_silent
  | K_handleExceptions | K_handleRejections | K_customTransports
  | K_customFormat.

Inductive JsValue : Type :=
  | VString (s : string)
  | VBoolean (b : bool)
  | VNumber (n : Z)
  | VLevel (l : LogLevel)
  | VTransports (ts : list winston.transport)
  | VFormat (f : winston.Format).

Definition fmap {A B} (f : A -> B) (x : field A) : field B :=
  match x with
  | Absent => Absent
  | Undefined => Undefined
  | Value a => Value (f a)
  end.

(** [o[k]] as an own-property lookup. *)
Definition getProperty (o : LoggerOptions) (k : Key) : field JsValue :=
  match k with
  | K_logName => fmap VString (logName o)
  | K_level => fmap VLevel (level o)
  | K_logDirectory => fmap VString (logDirectory o)
  | K_enableFileLogging => fmap VBoolean (enableFileLogging o)
  | K_maxFileSize => fmap VNumber (maxFileSize o)
  | K_maxFiles => fmap VNumber (maxFiles o)
  | K_separateErrorLog => fmap VBoolean (separateErrorLog o)
  | K_separateWarnLog => fmap VBoolean (separateWarnLog o)
  | K_useDailyRotation => fmap VBoolean (useDailyRotation o)
  | K_enableConsoleLogging => fmap VBoolean (enableConsoleLogging o)
  | K_prettyPrint => fmap VBoolean (prettyPrint o)
  | K_colorize => fmap VBoolean (colorize o)
  | K_timestampFormat => fmap VString (timestampFormat o)
  | K_locale => fmap VString (locale o)
  | K_silent => fmap VBoolean (silent o)
  | K_handleExceptions => fmap VBoolean (handleExceptions o)
  | K_handleRejections => fmap VBoolean (handleRejections o)
  | K_customTransports => fmap VTransports (customTransports o)
  | K_customFormat => fmap VFormat (customFormat o)
  end.

(** The three properties the factory writes after the two spreads. *)
Definition isComputedKey (k : Key) : bool :=
  match k with
  | K_logName | K_logDirectory | K_maxFileSize => true
  | _ => false
  end.

(* ================================================================== *)
(** ** [src/utils.ts] *)
(* ================================================================== *)

Definition createSafePath (w : World) (filePath : string) : SafePath :=
  let normalizedPath := path.normalize filePath in
  let safePath :=
    if path.isAbsolute normalizedPath
    then normalizedPath
    else path.resolve (cwd w) [cwd w; normalizedPath] in
  safePath.

Definition joinSafePaths (w : World) (paths : list string) : SafePath :=
  (* [p.toString()] is the identity on strings *)
  createSafePath w (path.join (map (fun p => p) paths)).

Definition getDefaultLogPath (w : World) : SafePath :=
  let cwd := createSafePath w (cwd w) in
  joinSafePaths w [cwd; "logs"].

Definition createSafePathWithSuffix (w : World) (basePath : SafePath)
    (suffix : string) : SafePath :=
  createSafePath w (basePath ++ suffix).

Definition createBytes (bytes : Z) : completion Bytes :=
  if (bytes <? 0)%Z then Throw (Error "Bytes cannot be negative")
  else Return bytes.

(** On an integer [size] the product of the code is this integer as long
    as it is a finite double (multiplying a double by a power of two is
    exact), that is below [2 ^ 1004] in absolute value; beyond that the
    code computes [Infinity]. *)
Definition MB (size : Z) : completion Bytes :=
  createBytes (size * 1024 * 1024)%Z.

(** The integer sizes on which [size * 1024 * 1024] stays finite. *)
Definition finiteMB (size : Z) : bool :=
  (Z.abs size <? 2 ^ 1004)%Z.

(* ================================================================== *)
(** ** [src/log-facotry.ts] *)
(* ================================================================== *)

(** [config.levels] *)
Definition config_levels : LogLevel -> Z := LogLevelValue.

Definition cbind {A B} (c : completion A) (k : A -> completion B)
  : completion B :=
  match c with Return a => k a | Throw e => Throw e end.

(** [MergedLoggerOptions]: the options object after the two spreads and
    the three computed properties.  [logName] and [logDirectory] are
    required by the type, and [maxFileSize] always receives a number. *)
Module Merged.
Record t : Type := {
  logName : string;
  level : field LogLevel;
  logDirectory : SafePath;
  enableFileLogging : field bool;
  maxFileSize : Bytes;
  maxFiles : field Z;
  separateErrorLog : field bool;
  separateWarnLog : field bool;
  useDailyRotation : field bool;
  enableConsoleLogging : field bool;
  prettyPrint : field bool;
  colorize : field bool;
  timestampFormat : field string;
  locale : field string;
  silent : field bool;
  handleExceptions : field bool;
  handleRejections : field bool;
  customTransports : field (list winston.transport);
  customFormat : field winston.Format
}.

Definition getProperty (o : t) (k : Key) : field JsValue :=
  match k with
  | K_logName => Value (VString (logName o))
  | K_level => fmap VLevel (level o)
  | K_logDirectory => Value (VString (logDirectory o))
  | K_enableFileLogging => fmap VBoolean (enableFileLogging o)
  | K_maxFileSize => Value (VNumber (maxFileSize o))
  | K_maxFiles => fmap VNumber (maxFiles o)
  | K_separateErrorLog => fmap VBoolean (separateErrorLog o)
  | K_separateWarnLog => fmap VBoolean (separateWarnLog o)
  | K_useDailyRotation => fmap VBoolean (useDailyRotation o)
  | K_enableConsoleLogging => fmap VBoolean (enableConsoleLogging o)
  | K_prettyPrint => fmap VBoolean (prettyPrint o)
  | K_colorize => fmap VBoolean (colorize o)
  | K_timestampFormat => fmap VString (timestampFormat o)
  | K_locale => fmap VString (locale o)
  | K_silent => fmap VBoolean (silent o)
  | K_handleExceptions => fmap VBoolean (handleExceptions o)
  | K_handleRejections => fmap VBoolean (handleRejections o)
  | K_customTransports => fmap VTransports (customTransports o)
  | K_customFormat => fmap VFormat (customFormat o)
  end.
End Merged.

(** Evaluation of the module-level constant [defaultOptions]: the three
    calls of [MB] run when the module is loaded. *)
Definition loadDefaultOptions : completion (Environment -> LoggerOptions) :=
  cbind (MB 5) (fun mb5 =>
  cbind (MB 10) (fun mb10 =>
  cbind (MB 1) (fun mb1 =>
  Return (fun env =>
    match env with
    | development =>
        {| logName := Absent; level := Value debug; logDirectory := Absent;
           enableFileLogging := Value true; maxFileSize := Value mb5;
           maxFiles := Value 5%Z; separateErrorLog := Value true;
           separateWarnLog := Value true; useDailyRotation := Value false;
           enableConsoleLogging := Value true; prettyPrint := Value true;
           colorize := Value true; timestampFormat := Absent;
           locale := Absent; silent := Absent; handleExceptions := Absent;
           handleRejections := Absent; customTransports := Absent;
           customFormat := Absent |}
    | production =>
        {| logName := Absent; level := Value info; logDirectory := Absent;
           enableFileLogging := Value true; maxFileSize := Value mb10;
           maxFiles := Value 10%Z; separateErrorLog := Value true;
           separateWarnLog := Value false; useDailyRotation := Value true;
           enableConsoleLogging := Value false; prettyPrint := Value false;
           colorize := Value false; timestampFormat := Absent;
           locale := Absent; silent := Absent; handleExceptions := Absent;
           handleRejections := Absent; customTransports := Absent;
           customFormat := Absent |}
    | test =>
        {| logName := Absent; level := Value debug; logDirectory := Absent;
           enableFileLogging := Value true; maxFileSize := Value mb1;
           maxFiles := Value 2%Z; separateErrorLog := Value true;
           separateWarnLog := Value false; useDailyRotation := Value false;
           enableConsoleLogging := Value false; prettyPrint := Value false;
           colorize := Value false; timestampFormat := Absent;
           locale := Absent; silent := Absent; handleExceptions := Absent;
           handleRejections := Absent; customTransports := Absent;
           customFormat := Absent |}
    end)))).

Definition valueOf {A : Type} (c : completion A)
  : match c with Return _ => A | Throw _ => unit end :=
  match c with Return a => a | Throw _ => tt end.

Definition defaultOptions : Environment -> LoggerOptions :=
  valueOf loadDefaultOptions.

Definition isValidEnvironment (env : string) : bool :=
  existsb (String.eqb env) ["development"; "production"; "test"].

(** [defaultOptions[env]] for a string [env]; [None] is [undefined]. *)
Definition defaultOptionsAt (env : string) : option LoggerOptions :=
  if (env =? "development")%string then Some (defaultOptions development)
  else if (env =? "production")%string then Some (defaultOptions production)
  else if (env =? "test")%string then Some (defaultOptions test)
  else None.

(** [x || d] on a string-or-undefined. *)
Definition orString (x : option string) (d : string) : string :=
  match x with
  | Some s => if (s =? "")%string then d else s
  | None => d
  end.

Definition safeLogDirectory (w : World) (options : LoggerOptions) : SafePath :=
  match read (logDirectory options) with
  | Some d => if negb (d =? "")%string then createSafePath w d
              else getDefaultLogPath w
  | None => getDefaultLogPath w
  end.

(** The object literal bound to [finalOptions]. *)
Definition finalOptions (w : World) (defaultEnvOptions options : LoggerOptions)
  : completion Merged.t :=
  let spreadBoth := spreadOptions defaultEnvOptions options in
  cbind
    (match read (maxFileSize options) with
     | Some v => Return v
     | None =>
         match read (maxFileSize defaultEnvOptions) with
         | Some v => Return v
         | None => MB 5
         end
     end)
    (fun maxFileSize' =>
       Return
         {| Merged.logName := nullish (read (logName options)) "app";
            Merged.level := level spreadBoth;
            Merged.logDirectory := safeLogDirectory w options;
            Merged.enableFileLogging := enableFileLogging spreadBoth;
            Merged.maxFileSize := maxFileSize';
            Merged.maxFiles := maxFiles spreadBoth;
            Merged.separateErrorLog := separateErrorLog spreadBoth;
            Merged.separateWarnLog := separateWarnLog spreadBoth;
            Merged.useDailyRotation := useDailyRotation spreadBoth;
            Merged.enableConsoleLogging := enableConsoleLogging spreadBoth;
            Merged.prettyPrint := prettyPrint spreadBoth;
            Merged.colorize := colorize spreadBoth;
            Merged.timestampFormat := timestampFormat spreadBoth;
            Merged.locale := locale spreadBoth;
            Merged.silent := silent spreadBoth;
            Merged.handleExceptions := handleExceptions spreadBoth;
            Merged.handleRejections := handleRejections spreadBoth;
            Merged.customTransports := customTransports spreadBoth;
            Merged.customFormat := customFormat spreadBoth |}).

(** [joinSafePaths(logDirectory, logName)] *)
Definition logDir (w : World) (o : Merged.t) : SafePath :=
  joinSafePaths w [Merged.logDirectory o; Merged.logName o].

Definition dateFormat (o : Merged.t) : winston.Format :=
  winston.timestampLocale (orString (read (Merged.locale o)) "en-US").

Definition fileFormat (o : Merged.t) : winston.Format :=
  winston.combine [dateFormat o; winston.printfFileLine].

Definition consoleFormat (o : Merged.t) : winston.Format :=
  winston.combine
    [ if truthy (read (Merged.prettyPrint o)) then winston.pretty
      else winston.simple;
      if truthy (read (Merged.colorize o)) then winston.colorizeAll
      else winston.simple;
      winston.printfMessage ].

(** [customFormat || d]: a format object is always truthy. *)
Definition orFormat (x : option winston.Format) (d : winston.Format)
  : winston.Format :=
  match x with Some f => f | None => d end.

Definition baseFileOptions (o : Merged.t) : winston.BaseFileOptions :=
  {| winston.maxsize := Some (Merged.maxFileSize o);
     winston.maxFiles := read (Merged.maxFiles o);
     winston.format := fileFormat o;
     winston.zippedArchive := true;
     winston.tailable := true |}.

Definition createLogPath (w : World) (o : Merged.t) (suffix : string) : string :=
  let baseLogPath := joinSafePaths w [logDir w o; Merged.logName o] in
  createSafePathWithSuffix w baseLogPath suffix.

(** [transports.push(...items)] *)
Definition push {A} (xs : list A) (items : list A) : list A :=
  (xs ++ items)%list.

(** The array [transports] after the last [push], when every constructor
    has returned. *)
Definition transports (w : World) (o : Merged.t) : list winston.transport :=
  let transports : list winston.transport := [] in
  let transports :=
    if truthy (read (Merged.enableConsoleLogging o)) then
      push transports
        [winston.Console
           (orFormat (read (Merged.customFormat o)) (consoleFormat o))]
    else transports in
  let transports :=
    if truthy (read (Merged.enableFileLogging o)) then
      let transports :=
        if truthy (read (Merged.useDailyRotation o)) then
          push transports
            [winston.DailyRotateFile (baseFileOptions o)
               (createLogPath w o "-%DATE%.log") "YYYY-MM-DD"]
        else
          push transports
            [winston.File (baseFileOptions o)
               (createLogPath w o "-All.log") None] in
      let transports :=
        if truthy (read (Merged.separateErrorLog o)) then
          push transports
            [winston.File (baseFileOptions o)
               (createLogPath w o "-error.log") (Some error)]
        else transports in
      let transports :=
        if truthy (read (Merged.separateWarnLog o)) then
          push transports
            [winston.File (baseFileOptions o)
               (createLogPath w o "-warn.log") (Some warn)]
        else transports in
      transports
    else transports in
  let transports :=
    match read (Merged.customTransports o) with
    | Some customTransports => push transports customTransports
    | None => transports
    end in
  transports.

(** [error instanceof Error ? error.message : String(error)] *)
Definition errorMessageOf (e : Exception) : completion string :=
  match e with
  | Error m => Return m
  | Thrown s => Return s
  | Unprintable raised => Throw raised
  end.

(** The [try]/[catch] around the directory creation. *)
Definition ensureLogDir (w : World) (dir : SafePath) : IO unit :=
  tryCatch
    (if negb (existsSync w dir) then
       (emit (MkdirSync dir true 448) ;;;
        match mkdirSync w dir with
        | None => ret tt
        | Some e => throw e
        end)%io
     else ret tt)
    (fun err =>
       (errorMessage <- lift (errorMessageOf err) ;;
        emit (ConsoleError ("Failed to create log directory: " ++ errorMessage)) ;;;
        throw err)%io).

(** [new T(options)] for a transport class of winston. *)
Definition new (w : World) (t : winston.transport) : IO winston.transport :=
  match construct w t with
  | None => ret t
  | Some e => throw e
  end.

(** The statements that fill the array [transports], with their
    constructor calls in the order the code makes them. *)
Definition newTransports (w : World) (o : Merged.t)
  : IO (list winston.transport) :=
  (let transports : list winston.transport := [] in
   transports <-
     (if truthy (read (Merged.enableConsoleLogging o)) then
        c <- new w (winston.Console
                      (orFormat (read (Merged.customFormat o))
                         (consoleFormat o))) ;;
        ret (push transports [c])
      else ret transports) ;;
   transports <-
     (if truthy (read (Merged.enableFileLogging o)) then
        transports <-
          (if truthy (read (Merged.useDailyRotation o)) then
             t <- new w (winston.DailyRotateFile (baseFileOptions o)
                           (createLogPath w o "-%DATE%.log") "YYYY-MM-DD") ;;
             ret (push transports [t])
           else
             t <- new w (winston.File (baseFileOptions o)
                           (createLogPath w o "-All.log") None) ;;
             ret (push transports [t])) ;;
        transports <-
          (if truthy (read (Merged.separateErrorLog o)) then
             t <- new w (winston.File (baseFileOptions o)
                           (createLogPath w o "-error.log") (Some error)) ;;
             ret (push transports [t])
           else ret transports) ;;
        transports <-
          (if truthy (read (Merged.separateWarnLog o)) then
             t <- new w (winston.File (baseFileOptions o)
                           (createLogPath w o "-warn.log") (Some warn)) ;;
             ret (push transports [t])
           else ret transports) ;;
        ret transports
      else ret transports) ;;
   ret (match read (Merged.customTransports o) with
        | Some customTransports => push transports customTransports
        | None => transports
        end))%io.

(** The closing call [winston.createLogger({ ... })] on the array
    [transports]. *)
Definition winston_createLoggerWith (o : Merged.t)
    (transports : list winston.transport) : winston.Logger :=
  {| winston.levels := config_levels;
     winston.level := nullish (read (Merged.level o)) info;
     winston.silent := read (Merged.silent o);
     winston.handleExceptions := read (Merged.handleExceptions o);
     winston.handleRejections := read (Merged.handleRejections o);
     winston.transports := transports;
     winston.loggerFormat :=
       orFormat (read (Merged.customFormat o)) winston.simple |}.

(** The logger of the closing call when every constructor has returned. *)
Definition winston_createLogger (w : World) (o : Merged.t) : winston.Logger :=
  winston_createLoggerWith o (transports w o).

Definition createLogger (w : World) (options : LoggerOptions)
  : IO winston.Logger :=
  (let env := orString (NODE_ENV w) "development" in
   (if negb (truthyString (NODE_ENV w)) then
      emit (ConsoleWarn
              "NODE_ENV not set, defaulting to development environment")
    else ret tt) ;;;
   (if negb (isValidEnvironment env) then
      throw (Error ("Invalid environment: " ++ env))
    else ret tt) ;;;
   defaultEnvOptions <-
     match defaultOptionsAt env with
     | Some d => ret d
     | None => throw (Error "Cannot read properties of undefined")
     end ;;
   o <- lift (finalOptions w defaultEnvOptions options) ;;
   ensureLogDir w (logDir w o) ;;;
   transports <- newTransports w o ;;
   ret (winston_createLoggerWith o transports))%io.

Definition createSimpleLogger (w : World) (env : Environment)
  : IO winston.Logger :=
  createLogger w (defaultOptions env).

(* ------------------------------------------------------------------ *)
(** *** Formats at work: what a transport prints

    The engine pieces the formats rest on ([JSON.parse], [JSON.stringify],
    [Object.entries], the colour library, the clock, formats written by
    the caller) are parameters: the factory only composes them. *)
(* ------------------------------------------------------------------ *)

(** [info.message]: a string, or some other value known through its
    [String(...)] rendering. *)
Inductive Message : Type :=
  | MString (s : string)
  | MOther (rendering : string).

Definition String_ (m : Message) : string :=
  match m with MString s => s | MOther s => s end.

(** The [info] object a format transforms: [info[LEVEL]], [info.level],
    [info.message], [info.timestamp] and [info[MESSAGE]]. *)
Record Info : Type := {
  LEVEL : LogLevel;
  levelText : string;
  message : Message;
  timestamp : option string;
  MESSAGE : option string
}.

Definition LogLevel_name (l : LogLevel) : string :=
  match l with
  | error => "error" | debug => "debug" | warn => "warn" | data => "data"
  | info => "info" | verbose => "verbose" | silly => "silly"
  end.

(** The object [logger.log] starts from. *)
Definition newInfo (l : LogLevel) (m : Message) : Info :=
  {| LEVEL := l; levelText := LogLevel_name l; message := m;
     timestamp := None; MESSAGE := None |}.

Definition setMessage (i : Info) (m : Message) : Info :=
  {| LEVEL := LEVEL i; levelText := levelText i; message := m;
     timestamp := timestamp i; MESSAGE := MESSAGE i |}.

Definition setMESSAGE (i : Info) (out : string) : Info :=
  {| LEVEL := LEVEL i; levelText := levelText i; message := message i;
     timestamp := timestamp i; MESSAGE := Some out |}.

Definition toUpperCaseChar (c : ascii) : ascii :=
  let n := nat_of_ascii c in
  if (97 <=? n) && (n <=? 122) then ascii_of_nat (n - 32) else c.

Fixpoint toUpperCase (s : string) : string :=
  match s with
  | EmptyString => EmptyString
  | String c s' => String (toUpperCaseChar c) (toUpperCase s')
  end.

(** The engine pieces, bundled. *)
Record Engine : Type := {
  JsonValue : Type;
  (** [JSON.parse(text)]; [None] when it throws. *)
  JSON_parse : string -> option JsonValue;
  (** [JSON.stringify] on a property name and on a parsed value. *)
  JSON_stringify_key : string -> string;
  JSON_stringify : JsonValue -> string;
  (** [Object.entries(parsed)] *)
  Object_entries : JsonValue -> list (string * JsonValue);
  (** The colour library applied to a text, for a level. *)
  colorizer : LogLevel -> string -> string;
  (** [new Date().toLocaleString(locale, ...)] *)
  clock : string -> string;
  (** The [transform] of a format supplied by the caller. *)
  userTransform : nat -> Info -> Info
}.

Section Formats.

Variable E : Engine.

(** The template literal of [prettyConsoleFormat]. *)
Definition wow (parsed : JsonValue E) : string :=
  "< wow "
  ++ Js.join ", "
       (map (fun '(key, value) =>
               JSON_stringify_key E key ++ " such "
               ++ JSON_stringify E value)
            (Object_entries E parsed))
  ++ " >".

(** [prettyConsoleFormat].  Only [JSON.parse] can throw inside the
    [try]: a text that starts with a brace and parses is an object whose
    entries are JSON values. *)
Definition prettyConsoleFormat (i : Info) : Info :=
  match message i with
  | MString m =>
      if Js.startsWith m "{" then
        match JSON_parse E m with
        | Some parsed => setMessage i (MString (wow parsed))
        | None => i
        end
      else i
  | MOther _ => i
  end.

Fixpoint transform (f : winston.Format) (i : Info) : Info :=
  match f with
  | winston.simple =>
      setMESSAGE i (levelText i ++ ": " ++ String_ (message i))
  | winston.colorizeAll =>
      {| LEVEL := LEVEL i;
         levelText := colorizer E (LEVEL i) (levelText i);
         message := MString (colorizer E (LEVEL i) (String_ (message i)));
         timestamp := timestamp i;
         MESSAGE := match MESSAGE i with
                    | Some out => Some (colorizer E (LEVEL i) out)
                    | None => None
                    end |}
  | winston.printfMessage => setMESSAGE i (String_ (message i))
  | winston.pretty => prettyConsoleFormat i
  | winston.timestampLocale locale =>
      {| LEVEL := LEVEL i; levelText := levelText i; message := message i;
         timestamp := Some (clock E locale); MESSAGE := MESSAGE i |}
  | winston.printfFileLine =>
      setMESSAGE i
        (match timestamp i with Some t => t | None => "undefined" end
         ++ " " ++ toUpperCase (levelText i) ++ ": " ++ String_ (message i))
  | winston.combine formats =>
      (fix chain (fs : list winston.Format) (i : Info) : Info :=
         match fs with
         | [] => i
         | g :: rest => chain rest (transform g i)
         end) formats i
  | winston.userFormat id => userTransform E id i
  end.

(** What the console transport writes for a record, before the line
    terminator: the logger's format runs first, then the transport's. *)
Definition consoleLine (lg : winston.Logger) (fmt : winston.Format)
    (l : LogLevel) (m : Message) : option string :=
  MESSAGE (transform fmt (transform (winston.loggerFormat lg) (newInfo l m))).

End Formats.

(* ================================================================== *)
(** ** Paths as lists of segments (specification side) *)
(* ================================================================== *)

Module Segments.

(** [p.split("/")] *)
Fixpoint segments (p : string) : list string :=
  match p with
  | EmptyString => [""]
  | String c p' =>
      if path.isPosixPathSeparator c then "" :: segments p'
      else match segments p' with
           | h :: t => String c h :: t
           | [] => [String c ""]
           end
  end.

Fixpoint noSlash (s : string) : bool :=
  match s with
  | EmptyString => true
  | String c s' => negb (path.isPosixPathSeparator c) && noSlash s'
  end.

(** A segment that survives normalization unchanged. *)
Definition plain (s : string) : bool :=
  negb (s =? "")%string && negb (s =? ".")%string
  && negb (s =? "..")%string && noSlash s.

(** One segment against the stack of kept segments (top first). *)
Definition segStep (allowAboveRoot : bool) (stack : list string)
    (s : string) : list string :=
  if (s =? "")%string || (s =? ".")%string then stack
  else if (s =? "..")%string then
    match stack with
    | top :: rest =>
        if (top =? "..")%string
        then (if allowAboveRoot then s :: stack else stack)
        else rest
    | [] => if allowAboveRoot then [s] else []
    end
  else s :: stack.

Definition render (stack : list string) : string :=
  Js.join "/" (rev stack).

(** An absolute path made of plain segments, without trailing slash
    (the shape of [process.cwd()] below the root). *)
Definition isPlainAbsolute (p : string) : bool :=
  match p with
  | String c rest =>
      path.isPosixPathSeparator c && forallb plain (segments rest)
  | EmptyString => false
  end.

(** Absolute and normalized: plain segments after the leading slash,
    possibly followed by one trailing slash. *)
Definition isNormalAbsolute (p : string) : bool :=
  match p with
  | String c rest =>
      path.isPosixPathSeparator c
      && ((rest =? "")%string
          || forallb plain (segments rest)
          || match rev (segments rest) with
             | last :: (_ :: _) as init =>
                 (last =? "")%string && forallb plain init
             | _ => false
             end)
  | EmptyString => false
  end.

End Segments.
Module MachineInv.
Import path Segments.

Fixpoint allDots (s : string) : bool :=
  match s with
  | EmptyString => true
  | String c s' => Ascii.eqb c CHAR_DOT && allDots s'
  end.

(** The value of the counter [dots] once the characters of [s] have
    been read since the last separator. *)
Definition dotsOf (s : string) : Z :=
  if allDots s then Z.of_nat (String.length s) else (-1)%Z.

Definition keptSegment (x : string) : Prop :=
  x <> "" /\ noSlash x = true.

(** The loop state represents a stack of kept segments. *)
Definition Inv (st : nstate) (stack : list string) : Prop :=
  res st = render stack
  /\ Forall keptSegment stack
  /\ lastSegmentLength st = String.length (hd "" stack).

(** The segment being read is glued in front of the first segment of
    what remains. *)
Definition prependHead (cur : string) (segs : list string) : list string :=
  match segs with
  | h :: t => (cur ++ h) :: t
  | [] => [cur]
  end.
End MachineInv.
Module NormalForm.
Import path Segments.

Definition plainList (xs : list string) : Prop :=
  Forall (fun s => plain s = true) xs.

(** [r] is ["/" ++ xs.join("/")], possibly with one trailing slash. *)
Definition NormalAbs (r : string) : Prop :=
  exists xs, plainList xs
    /\ (r = String "/" (Js.join "/" xs)
        \/ (xs <> [] /\ r = String "/" (Js.join "/" xs ++ "/"))).

(** [d] is ["/" ++ xs.join("/")] for a non-empty [xs]. *)
Definition PlainAbs (d : string) (xs : list string) : Prop :=
  d = String "/" (Js.join "/" xs) /\ xs <> [] /\ plainList xs.

(** What [normalizeString(p, true)] keeps. *)
Definition dotdotOrPlain (s : string) : Prop := s = ".." \/ plain s = true.

(** The segments kept from the working directory, and from a path
    read against it (an absolute path starts from the root). *)
Definition cwdStack (w : World) : list string :=
  fold_left (segStep false) (segments (cwd w)) [].

Definition absStack (w : World) (p : string) : list string :=
  fold_left (segStep false) (segments p)
    (if firstIsSlash p then [] else cwdStack w).
End NormalForm.

(* ================================================================== *)
(** ** The specification's vocabulary *)
(* ================================================================== *)

Module Spec.


Definition InvalidSize (e : Exception) : Prop :=
  e = Error "Bytes cannot be negative".

(** The environment-defaults table of section 4.3, one row per
    environment, sizes in megabytes. *)
Record Row : Type := {
  row_level : LogLevel;
  row_console : bool;
  row_file : bool;
  row_pretty : bool;
  row_color : bool;
  row_maxSizeMB : Z;
  row_maxFiles : Z;
  row_errLog : bool;
  row_warnLog : bool;
  row_dailyRotate : bool
}.

Definition environmentDefaults (env : Environment) : Row :=
  match env with
  | development =>
      {| row_level := debug; row_console := true; row_file := true;
         row_pretty := true; row_color := true; row_maxSizeMB := 5;
         row_maxFiles := 5; row_errLog := true; row_warnLog := true;
         row_dailyRotate := false |}
  | production =>
      {| row_level := info; row_console := false; row_file := true;
         row_pretty := false; row_color := false; row_maxSizeMB := 10;
         row_maxFiles := 10; row_errLog := true; row_warnLog := false;
         row_dailyRotate := true |}
  | test =>
      {| row_level := debug; row_console := false; row_file := true;
         row_pretty := false; row_color := false; row_maxSizeMB := 1;
         row_maxFiles := 2; row_errLog := true; row_warnLog := false;
         row_dailyRotate := false |}
  end.

Definition megabytes (n : Z) : Z := (n * 1048576)%Z.

(** A resolved configuration carries exactly the values of a row. *)
Definition matchesRow (o : Merged.t) (r : Row) : Prop :=
  Merged.level o = Value (row_level r)
  /\ Merged.enableConsoleLogging o = Value (row_console r)
  /\ Merged.enableFileLogging o = Value (row_file r)
  /\ Merged.prettyPrint o = Value (row_pretty r)
  /\ Merged.colorize o = Value (row_color r)
  /\ Merged.maxFileSize o = megabytes (row_maxSizeMB r)
  /\ Merged.maxFiles o = Value (row_maxFiles r)
  /\ Merged.separateErrorLog o = Value (row_errLog r)
  /\ Merged.separateWarnLog o = Value (row_warnLog r)
  /\ Merged.useDailyRotation o = Value (row_dailyRotate r).

(** The sinks of section 4.5. *)
Definition ConsoleSink (o : Merged.t) : winston.transport :=
  winston.Console (orFormat (read (Merged.customFormat o)) (consoleFormat o)).

Definition RotatedFile (w : World) (o : Merged.t) : winston.transport :=
  winston.DailyRotateFile (baseFileOptions o)
    (createLogPath w o "-%DATE%.log") "YYYY-MM-DD".

Definition CombinedFile (w : World) (o : Merged.t) : winston.transport :=
  winston.File (baseFileOptions o) (createLogPath w o "-All.log") None.

Definition ErrorFile (w : World) (o : Merged.t) : winston.transport :=
  winston.File (baseFileOptions o) (createLogPath w o "-error.log")
    (Some error).

Definition WarningFile (w : World) (o : Merged.t) : winston.transport :=
  winston.File (baseFileOptions o) (createLogPath w o "-warn.log")
    (Some warn).

Definition consoleSinks (o : Merged.t) : list winston.transport :=
  if truthy (read (Merged.enableConsoleLogging o))
  then [ConsoleSink o] else [].

Definition fileSinks (w : World) (o : Merged.t) : list winston.transport :=
  if truthy (read (Merged.enableFileLogging o)) then
    ([if truthy (read (Merged.useDailyRotation o))
      then RotatedFile w o else CombinedFile w o]
     ++ (if truthy (read (Merged.separateErrorLog o))
         then [ErrorFile w o] else [])
     ++ (if truthy (read (Merged.separateWarnLog o))
         then [WarningFile w o] else []))%list
  else [].

Definition customSinks (o : Merged.t) : list winston.transport :=
  match read (Merged.customTransports o) with
  | Some customTransports => customTransports
  | None => []
  end.

(** The order of section 4.5: console, files, custom sinks. *)
Definition sinks (w : World) (o : Merged.t) : list winston.transport :=
  (consoleSinks o ++ fileSinks w o ++ customSinks o)%list.


Definition warnNoEnv : Effect :=
  ConsoleWarn "NODE_ENV not set, defaulting to development environment".

(** The warning of a run that finds no usable [NODE_ENV]. *)
Definition warnPart (w : World) : list Effect :=
  if truthyString (NODE_ENV w) then [] else [warnNoEnv].

End Spec.

(** A process for the examples: working directory [/srv/app], an empty
    disk on which every directory can be created. *)
Definition demoWorld (env : option string) : World :=
  {| NODE_ENV := env; cwd := "/srv/app"; cwd_absolute := eq_refl;
     existsSync := fun _ => false; mkdirSync := fun _ => None;
     construct := fun _ => None |}.

(** Option objects of the examples. *)
Definition withLogDirectory (d : field string) (n : field string)
  : LoggerOptions :=
  {| logName := n; level := Absent; logDirectory := d;
     enableFileLogging := Value true; maxFileSize := Absent;
     maxFiles := Absent; separateErrorLog := Value true;
     separateWarnLog := Value true; useDailyRotation := Absent;
     enableConsoleLogging := Absent; prettyPrint := Absent;
     colorize := Absent; timestampFormat := Absent; locale := Absent;
     silent := Absent; handleExceptions := Absent;
     handleRejections := Absent; customTransports := Absent;
     customFormat := Absent |}.

(** A process in which the rotating-file constructor rejects a file
    name with a colon, one of the characters the library forbids. *)
Fixpoint hasColon (s : string) : bool :=
  match s with
  | EmptyString => false
  | String c rest => (c =? ":")%char || hasColon rest
  end.

Definition pickyWorld : World :=
  {| NODE_ENV := None; cwd := "/srv/app"; cwd_absolute := eq_refl;
     existsSync := fun _ => false; mkdirSync := fun _ => None;
     construct := fun t =>
       match t with
       | winston.DailyRotateFile _ filename _ =>
           if hasColon filename
           then Some (Error "Your path or filename contain an invalid character.")
           else None
       | _ => None
       end |}.

Definition rotatingNamed (n : string) : LoggerOptions :=
  {| logName := Value n; level := Absent; logDirectory := Absent;
     enableFileLogging := Absent; maxFileSize := Absent;
     maxFiles := Absent; separateErrorLog := Absent;
     separateWarnLog := Absent; useDailyRotation := Value true;
     enableConsoleLogging := Absent; prettyPrint := Absent;
     colorize := Absent; timestampFormat := Absent; locale := Absent;
     silent := Absent; handleExceptions := Absent;
     handleRejections := Absent; customTransports := Absent;
     customFormat := Absent |}.

Definition withLevel (l : field LogLevel) : LoggerOptions :=
  {| logName := Absent; level := l; logDirectory := Absent;
     enableFileLogging := Absent; maxFileSize := Absent;
     maxFiles := Absent; separateErrorLog := Absent;
     separateWarnLog := Absent; useDailyRotation := Absent;
     enableConsoleLogging := Absent; prettyPrint := Absent;
     colorize := Absent; timestampFormat := Absent; locale := Absent;
     silent := Absent; handleExceptions := Absent;
     handleRejections := Absent; customTransports := Absent;
     customFormat := Absent |}.

Definition filenameOf (t : winston.transport) : option string :=
  match t with
  | winston.File _ filename _ => Some filename
  | winston.DailyRotateFile _ filename _ => Some filename
  | _ => None
  end.

(** The double-quote character and a text between double quotes. *)
Definition dquote : string := String (ascii_of_nat 34) "".
Definition quoted (s : string) : string := dquote ++ s ++ dquote.

(** The message of the test "custom pretty print format works":
    [JSON.stringify({ test: "value" })], and the text expected. *)
Definition testMessage : string :=
  "{" ++ quoted "test" ++ ":" ++ quoted "value" ++ "}".

Definition wowText : string :=
  "< wow " ++ quoted "test" ++ " such " ++ quoted "value" ++ " >".

(** A small engine for the examples: JSON restricted to flat objects of
    strings without escapes, ANSI green for every level. *)
Module Toy.

Fixpoint untilQuote (s : string) : option (string * string) :=
  match s with
  | EmptyString => None
  | String c s' =>
      if Ascii.eqb c (ascii_of_nat 34) then Some ("", s')
      else match untilQuote s' with
           | Some (a, r) => Some (String c a, r)
           | None => None
           end
  end.

Fixpoint entries (fuel : nat) (s : string)
  : option (list (string * string)) :=
  match fuel with
  | O => None
  | S fuel' =>
      match s with
      | String q s1 =>
          if Ascii.eqb q (ascii_of_nat 34) then
            match untilQuote s1 with
            | Some (k, String colon (String q2 s2)) =>
                if Ascii.eqb colon ":" && Ascii.eqb q2 (ascii_of_nat 34) then
                  match untilQuote s2 with
                  | Some (v, String sep s3) =>
                      if Ascii.eqb sep "}" then
                        (if (s3 =? "")%string then Some [(k, v)] else None)
                      else if Ascii.eqb sep "," then
                        option_map (cons (k, v)) (entries fuel' s3)
                      else None
                  | _ => None
                  end
                else None
            | _ => None
            end
          else None
      | EmptyString => None
      end
  end.

Definition parse (s : string) : option (list (string * string)) :=
  match s with
  | String c rest =>
      if Ascii.eqb c "{" then
        if (rest =? "}")%string then Some []
        else entries (String.length s) rest
      else None
  | EmptyString => None
  end.

Inductive json : Type :=
  | JStr (s : string)
  | JObj (kvs : list (string * string)).

Definition stringify (v : json) : string :=
  match v with
  | JStr s => quoted s
  | JObj kvs =>
      "{" ++ Js.join ","
               (map (fun '(k, v) => quoted k ++ ":" ++ quoted v) kvs)
      ++ "}"
  end.

Definition objectEntries (v : json) : list (string * json) :=
  match v with
  | JStr _ => []
  | JObj kvs => map (fun '(k, v) => (k, JStr v)) kvs
  end.

Definition green (s : string) : string :=
  String (ascii_of_nat 27) "[32m" ++ s ++ String (ascii_of_nat 27) "[39m".

Definition engine : Engine :=
  {| JsonValue := json;
     JSON_parse := fun s => option_map JObj (parse s);
     JSON_stringify_key := quoted;
     JSON_stringify := stringify;
     Object_entries := objectEntries;
     colorizer := fun _ s => green s;
     clock := fun _ => "01/01/2025, 00:00:00";
     userTransform := fun _ i => i |}.

End Toy.

(* ================================================================== *)
(** ** [src/utils/tryCatchWrapper.ts] *)
(* ================================================================== *)

Module TryCatch.

(** The object literal a wrapper returns, [{ success, data, error }];
    [None] is [null]. *)
Record Result (T Err : Type) : Type := {
  success : bool;
  data : option T;
  error : option Err
}.
Arguments success {T Err} r.
Arguments data {T Err} r.
Arguments error {T Err} r.

(** [error instanceof Error ? error : new Error(String(error))] *)
Definition asError (e : Exception) : completion Exception :=
  match e with
  | Error m => Return (Error m)
  | Thrown s => Return (Error s)
  | Unprintable raised => Throw raised
  end.

(** The value stored in [error]: the default conversion of what was
    caught ([inl]), or what the caller's [errorHandler] returned
    ([inr]). *)
Definition Handled (E : Type) : Type := (Exception + E)%type.

(** [tryCatchSync(operation, errorHandler)].  [operation] stands for the
    outcome of calling it; an [errorHandler] is itself a function that may
    throw. *)
Definition tryCatchSync {T E : Type} (operation : completion T)
    (errorHandler : option (Exception -> completion E))
  : completion (Result T (Handled E)) :=
  match operation with
  | Return d =>
      Return {| success := true; data := Some d; error := None |}
  | Throw err =>
      cbind
        (match errorHandler with
         | Some handler => cbind (handler err) (fun h => Return (inr h))
         | None => cbind (asError err) (fun e => Return (inl e))
         end)
        (fun handledError =>
           Return {| success := false; data := None;
                     error := Some handledError |})
  end.

(** The states of a promise. *)
Inductive Promise (A : Type) : Type :=
  | Fulfilled (a : A)
  | Rejected (e : Exception)
  | Pending.
Arguments Fulfilled {A} a.
Arguments Rejected {A} e.
Arguments Pending {A}.

(** The promise an [async] function returns for the outcome of its
    body. *)
Definition promiseOf {A : Type} (c : completion A) : Promise A :=
  match c with
  | Return a => Fulfilled a
  | Throw e => Rejected e
  end.

(** [tryCatch(operation, errorHandler)].  Calling [operation] either
    throws at once or returns a promise; [await] on it returns, throws or
    never resumes. *)
Definition tryCatch {T E : Type} (operation : completion (Promise T))
    (errorHandler : option (Exception -> completion E))
  : Promise (Result T (Handled E)) :=
  let catch (err : Exception) :=
    promiseOf
      (cbind
         (match errorHandler with
          | Some handler => cbind (handler err) (fun h => Return (inr h))
          | None => cbind (asError err) (fun e => Return (inl e))
          end)
         (fun handledError =>
            Return {| success := false; data := None;
                      error := Some handledError |})) in
  match operation with
  | Throw err => catch err
  | Return (Rejected err) => catch err
  | Return (Fulfilled d) =>
      Fulfilled {| success := true; data := Some d; error := None |}
  | Return Pending => Pending
  end.

End TryCatch.

(* ================================================================== *)
(** ** Observations on runs of the factory *)
(* ================================================================== *)

(** The exception of the first constructor call that throws, for the
    transports constructed in this order. *)
Fixpoint firstFailure (w : World) (ts : list winston.transport)
  : option Exception :=
  match ts with
  | [] => None
  | t :: rest =>
      match construct w t with
      | Some e => Some e
      | None => firstFailure w rest
      end
  end.

(** The transports the factory constructs itself, in the order of the
    constructor calls. *)
Definition constructed (w : World) (o : Merged.t) : list winston.transport :=
  (Spec.consoleSinks o ++ Spec.fileSinks w o)%list.





(* ================================================================== *)
(** ** Node's documented examples, checked against the transcription *)
(* ================================================================== *)

Module PathExamples.

Example normalize_doc :
  path.normalize "/foo/bar//baz/asdf/quux/.." = "/foo/bar/baz/asdf".
Proof. reflexivity. Qed.

Example normalize_keeps_leading_dotdot :
  path.normalize "../../a/./b/../c/" = "../../a/c/".
Proof. reflexivity. Qed.

Example normalize_climbs_out : path.normalize "a/../.." = "..".
Proof. reflexivity. Qed.

Example normalize_root_absorbs_dotdot :
  path.normalize "/../a/.../b" = "/a/.../b".
Proof. reflexivity. Qed.

Example normalize_empty : path.normalize "" = ".".
Proof. reflexivity. Qed.

Example join_doc :
  path.join ["/foo"; "bar"; "baz/asdf"; "quux"; ".."] = "/foo/bar/baz/asdf".
Proof. reflexivity. Qed.

Example join_empties : path.join [""; ""] = ".".
Proof. reflexivity. Qed.

Example resolve_doc_absolute :
  path.resolve "/home/u" ["/foo/bar"; "./baz"] = "/foo/bar/baz".
Proof. reflexivity. Qed.

Example resolve_doc_relative :
  path.resolve "/home/u" ["wwwroot"; "static_files/png/"; "../gif/image.gif"]
  = "/home/u/wwwroot/static_files/gif/image.gif".
Proof. reflexivity. Qed.

Example createSafePath_demo_relative :
  createSafePath (demoWorld None) "./logs" = "/srv/app/logs".
Proof. reflexivity. Qed.

Example getDefaultLogPath_demo :
  getDefaultLogPath (demoWorld None) = "/srv/app/logs".
Proof. reflexivity. Qed.

End PathExamples.

(* ================================================================== *)
(** ** Theory of the path functions *)
(* ================================================================== *)

Module PathTheory.
Import path Segments.

Lemma sapp_assoc (a b c : string) : (a ++ b) ++ c = a ++ (b ++ c).
Proof. induction a as [|x a IH]; simpl; [reflexivity | now rewrite IH]. Qed.

Lemma sapp_nil_r (a : string) : a ++ "" = a.
Proof. induction a as [|x a IH]; simpl; [reflexivity | now rewrite IH]. Qed.

Lemma slen_app (a b : string) :
  String.length (a ++ b) = String.length a + String.length b.
Proof. induction a as [|x a IH]; simpl; [reflexivity | now rewrite IH]. Qed.

Lemma slen_zero (s : string) : String.length s = 0 -> s = "".
Proof. destruct s; simpl; [reflexivity | discriminate]. Qed.

Lemma sapp_eq_nil (a b : string) : a ++ b = "" -> a = "" /\ b = "".
Proof. destruct a; simpl; [auto | discriminate]. Qed.

Lemma get_app_r (a b : string) (k : nat) :
  String.get (String.length a + k) (a ++ b) = String.get k b.
Proof. induction a as [|x a IH]; simpl; [reflexivity | exact IH]. Qed.

Lemma substring_app_l (a b : string) :
  String.substring 0 (String.length a) (a ++ b) = a.
Proof.
  induction a as [|x a IH]; simpl.
  - destruct b; reflexivity.
  - now rewrite IH.
Qed.

(** *** Segments *)

Lemma segments_nonnil (p : string) : segments p <> [].
Proof.
  destruct p as [|c p]; simpl; [discriminate|].
  destruct (isPosixPathSeparator c); [discriminate|].
  destruct (segments p); discriminate.
Qed.

Lemma segments_app_slash (a b : string) :
  segments (a ++ String "/" b) = (segments a ++ segments b)%list.
Proof.
  induction a as [|c a IH]; simpl.
  - reflexivity.
  - rewrite IH. destruct (isPosixPathSeparator c); [reflexivity|].
    pose proof (segments_nonnil a) as Hn.
    destruct (segments a) as [|h t]; [contradiction | reflexivity].
Qed.

Lemma segments_noSlash (p : string) :
  Forall (fun s => noSlash s = true) (segments p).
Proof.
  induction p as [|c p IH]; simpl.
  - repeat constructor.
  - destruct (isPosixPathSeparator c) eqn:Hc.
    + constructor; [reflexivity | exact IH].
    + destruct (segments p) as [|h t]; simpl.
      * repeat constructor. simpl. now rewrite Hc.
      * inversion IH; subst. constructor; [|assumption].
        simpl. rewrite Hc. simpl. assumption.
Qed.

Lemma segments_of_noSlash (s : string) :
  noSlash s = true -> segments s = [s].
Proof.
  induction s as [|c s IH]; simpl; intros H; [reflexivity|].
  apply andb_true_iff in H as [Hc Hs].
  apply negb_true_iff in Hc. rewrite Hc, (IH Hs). reflexivity.
Qed.

Lemma join_segments (p : string) : Js.join "/" (segments p) = p.
Proof.
  induction p as [|c p IH]; simpl; [reflexivity|].
  destruct (isPosixPathSeparator c) eqn:Hc.
  - apply Ascii.eqb_eq in Hc. subst c.
    pose proof (segments_nonnil p) as Hn.
    destruct (segments p) as [|h t] eqn:E; [contradiction|].
    change (Js.join "/" ("" :: h :: t)) with ("" ++ "/" ++ Js.join "/" (h :: t)).
    rewrite IH. reflexivity.
  - pose proof (segments_nonnil p) as Hn.
    destruct (segments p) as [|h t] eqn:E; [contradiction|].
    destruct t as [|h' t'].
    + simpl in *. now rewrite IH.
    + change (Js.join "/" (String c h :: h' :: t'))
        with (String c (h ++ "/" ++ Js.join "/" (h' :: t'))).
      change (Js.join "/" (h :: h' :: t'))
        with (h ++ "/" ++ Js.join "/" (h' :: t')) in IH.
      now rewrite IH.
Qed.

Lemma join_cons (x : string) (xs : list string) :
  xs <> [] -> Js.join "/" (x :: xs) = x ++ String "/" (Js.join "/" xs).
Proof. destruct xs; [contradiction | reflexivity]. Qed.

Lemma segments_join (xs : list string) :
  xs <> [] -> Forall (fun s => noSlash s = true) xs ->
  segments (Js.join "/" xs) = xs.
Proof.
  induction xs as [|x xs IH]; intros Hne Hall; [contradiction|].
  inversion Hall as [|? ? Hx Hxs]; subst.
  destruct xs as [|y ys].
  - simpl. now apply segments_of_noSlash.
  - rewrite join_cons by discriminate.
    rewrite segments_app_slash, IH by (try discriminate; assumption).
    now rewrite segments_of_noSlash.
Qed.

Lemma join_snoc (xs : list string) (x : string) :
  xs <> [] -> Js.join "/" (xs ++ [x])%list = Js.join "/" xs ++ String "/" x.
Proof.
  induction xs as [|y ys IH]; intros Hne; [contradiction|].
  destruct ys as [|z zs].
  - reflexivity.
  - change ((y :: z :: zs) ++ [x])%list with (y :: ((z :: zs) ++ [x]))%list.
    rewrite (join_cons y ((z :: zs) ++ [x])%list) by discriminate.
    rewrite IH by discriminate.
    rewrite (join_cons y (z :: zs)) by discriminate.
    simpl. now rewrite sapp_assoc.
Qed.

Lemma render_nil : render [] = "".
Proof. reflexivity. Qed.

Lemma render_single (t : string) : render [t] = t.
Proof. reflexivity. Qed.

Lemma render_cons (t : string) (rest : list string) :
  rest <> [] -> render (t :: rest) = render rest ++ String "/" t.
Proof.
  intros Hne. unfold render. simpl rev.
  apply join_snoc. intros E. apply Hne.
  destruct rest; [reflexivity|]. simpl in E.
  destruct (rev rest); discriminate.
Qed.

End PathTheory.
Module MachineTheory.
Import path Segments MachineInv PathTheory.

Lemma allDots_snoc (s : string) (c : ascii) :
  allDots (s ++ String c "") = allDots s && Ascii.eqb c CHAR_DOT.
Proof.
  induction s as [|a s IH]; simpl.
  - now rewrite andb_true_r.
  - rewrite IH. now rewrite andb_assoc.
Qed.

Lemma dotsOf_snoc (s : string) (c : ascii) :
  dotsOf (s ++ String c "")
  = if Ascii.eqb c CHAR_DOT && negb (dotsOf s =? -1)%Z
    then (dotsOf s + 1)%Z else (-1)%Z.
Proof.
  unfold dotsOf. rewrite allDots_snoc, slen_app. simpl String.length.
  destruct (allDots s), (Ascii.eqb c CHAR_DOT); simpl; try reflexivity.
  destruct (Z.eqb_spec (Z.of_nat (String.length s)) (-1)); simpl; lia.
Qed.

Lemma dotsOf_is1 (s : string) : (dotsOf s =? 1)%Z = (s =? ".")%string.
Proof.
  unfold dotsOf.
  destruct s as [|a [|b s]]; simpl; try reflexivity.
  - rewrite andb_true_r. change CHAR_DOT with "."%char.
    destruct (Ascii.eqb a "."); reflexivity.
  - change CHAR_DOT with "."%char.
    destruct (Ascii.eqb a "."); simpl; [|reflexivity].
    destruct (Ascii.eqb b "." && allDots s); [|reflexivity].
    apply Z.eqb_neq; lia.
Qed.

Lemma dotsOf_is2 (s : string) : (dotsOf s =? 2)%Z = (s =? "..")%string.
Proof.
  unfold dotsOf.
  destruct s as [|a [|b [|c s]]]; simpl; try reflexivity.
  - change CHAR_DOT with "."%char.
    destruct (Ascii.eqb a "."); reflexivity.
  - change CHAR_DOT with "."%char. rewrite andb_true_r.
    destruct (Ascii.eqb a "."), (Ascii.eqb b "."); reflexivity.
  - change CHAR_DOT with "."%char.
    destruct (Ascii.eqb a "."); simpl; [|reflexivity].
    destruct (Ascii.eqb b "."); simpl; [|reflexivity].
    destruct (Ascii.eqb c "." && allDots s); [|reflexivity].
    apply Z.eqb_neq; lia.
Qed.

Lemma lastIndexOf_noSlash (s : string) :
  noSlash s = true -> Js.lastIndexOf s CHAR_FORWARD_SLASH = (-1)%Z.
Proof.
  induction s as [|a s IH]; simpl; intros H; [reflexivity|].
  apply andb_true_iff in H as [Ha Hs]. rewrite (IH Hs). simpl.
  apply negb_true_iff in Ha. unfold isPosixPathSeparator in Ha. now rewrite Ha.
Qed.

Lemma lastIndexOf_app_slash (a t : string) :
  noSlash t = true ->
  Js.lastIndexOf (a ++ String "/" t) CHAR_FORWARD_SLASH
  = Z.of_nat (String.length a).
Proof.
  intros Ht. induction a as [|x a IH].
  - simpl. rewrite (lastIndexOf_noSlash t Ht). reflexivity.
  - simpl append. simpl Js.lastIndexOf. rewrite IH.
    destruct (Z.leb_spec 0 (Z.of_nat (String.length a))); [|lia].
    simpl String.length. lia.
Qed.

Lemma render_top (t : string) (rest : list string) :
  exists pre, render (t :: rest) = pre ++ t
              /\ (rest = [] -> pre = "")
              /\ (rest <> [] -> pre = render rest ++ "/").
Proof.
  destruct rest as [|r rs].
  - exists "". split; [reflexivity|]. split; [reflexivity | intros H; now elim H].
  - exists (render (r :: rs) ++ "/"). split; [|split].
    + rewrite render_cons by discriminate. now rewrite sapp_assoc.
    + discriminate.
    + reflexivity.
Qed.

Lemma render_nonempty (stack : list string) :
  Forall keptSegment stack -> stack <> [] -> render stack <> "".
Proof.
  intros Hall Hne. destruct stack as [|t rest]; [contradiction|].
  inversion Hall as [|? ? [Ht _] _]; subst.
  destruct (render_top t rest) as (pre & E & _). rewrite E.
  intros C. apply sapp_eq_nil in C as [_ C]. contradiction.
Qed.

Lemma render_empty_inv (stack : list string) :
  Forall keptSegment stack -> render stack = "" -> stack = [].
Proof.
  intros Hall E. destruct stack as [|t rest]; [reflexivity|].
  exfalso. revert E. apply render_nonempty; [assumption | discriminate].
Qed.

Lemma len_pos_iff (s : string) : (0 <? Js.len s) = negb (s =? "")%string.
Proof. destruct s; reflexivity. Qed.

Lemma lastIsNotDotDot_spec (st : nstate) (stack : list string) :
  Inv st stack ->
  lastIsNotDotDot st
  = match stack with
    | top :: _ => negb (top =? "..")%string
    | [] => true
    end.
Proof.
  intros (Hres & Hall & Hlsl). unfold lastIsNotDotDot.
  destruct stack as [|top rest].
  - rewrite Hres. reflexivity.
  - destruct (render_top top rest) as (pre & E & _).
    rewrite Hres, E, Hlsl. simpl hd. unfold Js.len, Js.charAt.
    rewrite slen_app.
    inversion Hall as [|? ? [Htop _] _]; subst.
    destruct top as [|a [|b [|c top]]].
    + contradiction.
    + simpl String.length. simpl (1 =? 2). simpl negb.
      rewrite orb_true_r. simpl.
      destruct (Ascii.eqb a "."); reflexivity.
    + simpl String.length.
      replace (String.length pre + 2 - 1) with (String.length pre + 1) by lia.
      replace (String.length pre + 2 - 2) with (String.length pre + 0) by lia.
      rewrite !get_app_r. simpl String.get.
      replace (String.length pre + 2 <? 2) with false
        by (symmetry; apply Nat.ltb_ge; lia).
      simpl. change CHAR_DOT with "."%char.
      destruct (Ascii.eqb a "."), (Ascii.eqb b "."); reflexivity.
    + simpl String.length. simpl (S (S (S _)) =? 2). simpl negb.
      rewrite orb_true_r. simpl.
      destruct (Ascii.eqb a "."); simpl; [|reflexivity].
      destruct (Ascii.eqb b "."); reflexivity.
Qed.

Lemma onSeparator_seg (allow : bool) (st : nstate) :
  seg (onSeparator allow st) = "" /\ dots (onSeparator allow st) = 0%Z
  /\ code (onSeparator allow st) = code st.
Proof.
  unfold onSeparator.
  repeat match goal with
         | |- context [if ?b then _ else _] => destruct b
         end; simpl; auto.
Qed.

Lemma onSeparator_spec (allow : bool) (st : nstate) (stack : list string) :
  Inv st stack ->
  dots st = dotsOf (seg st) ->
  noSlash (seg st) = true ->
  Inv (onSeparator allow st) (segStep allow stack (seg st)).
Proof.
  intros HI Hd Hs.
  pose proof (lastIsNotDotDot_spec st stack HI) as Hlast.
  destruct HI as (Hres & Hall & Hlsl).
  unfold onSeparator, segStep.
  rewrite Hd, dotsOf_is1, dotsOf_is2.
  destruct (seg st =? "")%string eqn:E0; simpl orb.
  { repeat split; assumption. }
  destruct (seg st =? ".")%string eqn:E1.
  { repeat split; assumption. }
  destruct (seg st =? "..")%string eqn:E2.
  - (* a [..] segment *)
    rewrite Hlast.
    destruct stack as [|top rest].
    + (* nothing to pop *)
      rewrite Hres. simpl.
      destruct allow; simpl.
      * apply String.eqb_eq in E2. rewrite E2.
        repeat split; simpl; auto. repeat constructor; discriminate.
      * repeat split; simpl; auto.
    + destruct (top =? "..")%string eqn:Et; simpl negb; cbv iota.
      * (* the top is [..] already *)
        apply String.eqb_eq in E2. apply String.eqb_eq in Et.
        destruct allow.
        -- rewrite len_pos_iff.
           assert (Hne : res st <> "").
           { rewrite Hres. apply render_nonempty; [assumption|discriminate]. }
           apply String.eqb_neq in Hne. rewrite Hne. simpl negb. cbv iota.
           rewrite E2.
           repeat split; simpl.
           ++ rewrite render_cons by discriminate. now rewrite Hres.
           ++ constructor; [split; [discriminate|reflexivity]|assumption].
        -- repeat split; assumption.
      * (* pop the top *)
        inversion Hall as [|? ? [Htop HtopS] Hrest]; subst.
        destruct (render_top top rest) as (pre & E & Epre0 & Epre1).
        destruct rest as [|r rs].
        -- (* a single segment *)
           assert (Er : res st = top).
           { rewrite Hres, E, (Epre0 eq_refl). reflexivity. }
           rewrite Er.
           rewrite (lastIndexOf_noSlash top HtopS). simpl (_ =? -1)%Z.
           cbv iota.
           assert (HL : negb (Js.len top =? 0) = true).
           { destruct top; [contradiction|reflexivity]. }
           rewrite HL.
           destruct (2 <? Js.len top); repeat split; simpl; auto.
        -- (* at least two segments *)
           assert (Er : res st = render (r :: rs) ++ String "/" top).
           { rewrite Hres. apply render_cons. discriminate. }
           assert (Hr : render (r :: rs) <> "").
           { apply render_nonempty; [assumption|discriminate]. }
           assert (Hlen : (2 <? Js.len (res st)) = true).
           { apply Nat.ltb_lt. rewrite Er. unfold Js.len. rewrite slen_app.
             simpl String.length.
             destruct (render (r :: rs)); [contradiction|].
             destruct top; [contradiction|]. simpl. lia. }
           rewrite Hlen.
           rewrite Er, (lastIndexOf_app_slash _ _ HtopS).
           destruct (Z.eqb_spec (Z.of_nat (String.length (render (r :: rs)))) (-1));
             [lia|].
           rewrite Nat2Z.id. unfold Js.slice. rewrite Nat.sub_0_r.
           rewrite substring_app_l.
           repeat split; simpl res; simpl lastSegmentLength; auto.
           inversion Hrest as [|? ? [Hr0 HrS] Hrs]; subst.
           destruct (render_top r rs) as (pre' & E' & Epre0' & Epre1').
           simpl hd. unfold Js.len.
           destruct rs as [|r2 rs2].
           ++ rewrite E', (Epre0' eq_refl). simpl append.
              rewrite (lastIndexOf_noSlash r HrS). lia.
           ++ rewrite (render_cons r (r2 :: rs2)) by discriminate.
              rewrite (lastIndexOf_app_slash _ _ HrS).
              rewrite slen_app. simpl String.length. lia.
  - (* an ordinary segment *)
    rewrite len_pos_iff.
    assert (Hk : keptSegment (seg st)).
    { split; [now apply String.eqb_neq | assumption]. }
    destruct stack as [|top rest].
    + rewrite Hres. simpl.
      repeat split; simpl; auto.
    + assert (Hne : res st <> "").
      { rewrite Hres. apply render_nonempty; [assumption|discriminate]. }
      apply String.eqb_neq in Hne. rewrite Hne. simpl negb. cbv iota.
      repeat split; simpl; auto.
      rewrite render_cons by discriminate. now rewrite Hres.
Qed.

End MachineTheory.
Module NormalizeTheory.
Import path Segments MachineInv PathTheory MachineTheory.

Lemma noSlash_snoc (s : string) (c : ascii) :
  noSlash s = true -> isPosixPathSeparator c = false ->
  noSlash (s ++ String c "") = true.
Proof.
  intros Hs Hc. induction s as [|a s IH]; simpl in *.
  - now rewrite Hc.
  - apply andb_true_iff in Hs as [Ha Hs]. now rewrite Ha, IH.
Qed.

Lemma prependHead_nil (segs : list string) :
  segs <> [] -> prependHead "" segs = segs.
Proof. destruct segs; [contradiction | reflexivity]. Qed.

(** The loop folds [segStep] over the segments of its input. *)
Lemma nloop_spec (allow : bool) (p : string) :
  forall (st : nstate) (stack : list string),
    Inv st stack ->
    dots st = dotsOf (seg st) ->
    noSlash (seg st) = true ->
    (isPosixPathSeparator (code st) = true -> seg st = "") ->
    res (nloop allow st p)
    = render (fold_left (segStep allow)
                (prependHead (seg st) (segments p)) stack).
Proof.
  induction p as [|c p IH]; intros st stack HI Hd Hs Hc.
  - simpl. rewrite sapp_nil_r. unfold nfinish.
    destruct (isPosixPathSeparator (code st)) eqn:Ec.
    + rewrite (Hc eq_refl). unfold segStep. simpl.
      now destruct HI as (-> & _).
    + now destruct (onSeparator_spec allow st stack HI Hd Hs) as (-> & _).
  - simpl nloop. simpl segments. unfold nstep.
    cbv zeta. cbn [dots seg res lastSegmentLength code].
    destruct (isPosixPathSeparator c) eqn:Ec.
    + set (st1 := {| res := res st; lastSegmentLength := lastSegmentLength st;
                     seg := seg st; dots := dots st; code := c |}).
      assert (HI1 : Inv st1 stack) by exact HI.
      pose proof (onSeparator_spec allow st1 stack HI1 Hd Hs) as HI2.
      destruct (onSeparator_seg allow st1) as (Eseg & Edots & Ecode).
      rewrite (IH _ _ HI2).
      * rewrite Eseg. rewrite prependHead_nil by apply segments_nonnil.
        simpl. now rewrite sapp_nil_r.
      * now rewrite Eseg, Edots.
      * now rewrite Eseg.
      * intros _. exact Eseg.
    + pose proof (segments_nonnil p) as Hn.
      destruct (segments p) as [|h t] eqn:Eseg; [contradiction|].
      assert (Hpre : prependHead (seg st) (String c h :: t)
                     = prependHead (seg st ++ String c "") (h :: t)).
      { simpl. now rewrite sapp_assoc. }
      rewrite Hpre.
      destruct (Ascii.eqb c CHAR_DOT && negb (dots st =? -1)%Z) eqn:Edot.
      * rewrite (IH _ stack); simpl; try reflexivity.
        -- exact HI.
        -- rewrite dotsOf_snoc, <- Hd, Edot. reflexivity.
        -- now apply noSlash_snoc.
        -- intros C. congruence.
      * rewrite (IH _ stack); simpl; try reflexivity.
        -- exact HI.
        -- rewrite dotsOf_snoc, <- Hd, Edot. reflexivity.
        -- now apply noSlash_snoc.
        -- intros C. congruence.
Qed.

Lemma Inv_nstate0 : Inv nstate0 [].
Proof. repeat split. constructor. Qed.

Theorem normalizeString_segments (p : string) (allow : bool) :
  normalizeString p allow
  = render (fold_left (segStep allow) (segments p) []).
Proof.
  unfold normalizeString.
  rewrite (nloop_spec allow p nstate0 [] Inv_nstate0); try reflexivity.
  simpl seg. rewrite prependHead_nil by apply segments_nonnil. reflexivity.
Qed.

End NormalizeTheory.
Module WrapperTheory.
Import path Segments MachineInv NormalForm PathTheory MachineTheory NormalizeTheory.

Lemma plain_parts (s : string) :
  plain s = true ->
  (s =? "")%string = false /\ (s =? ".")%string = false
  /\ (s =? "..")%string = false /\ noSlash s = true.
Proof.
  unfold plain. intros H.
  repeat (apply andb_true_iff in H as [H ?]).
  repeat split; try (now apply negb_true_iff); assumption.
Qed.

Lemma plain_kept (s : string) : plain s = true -> keptSegment s.
Proof.
  intros H. destruct (plain_parts s H) as (H0 & _ & _ & Hs).
  split; [now apply String.eqb_neq | assumption].
Qed.

Lemma segStep_plain (allow : bool) (stack : list string) (s : string) :
  plain s = true -> segStep allow stack s = s :: stack.
Proof.
  intros H. destruct (plain_parts s H) as (H0 & H1 & H2 & _).
  unfold segStep. now rewrite H0, H1, H2.
Qed.

Lemma fold_plain (allow : bool) (xs : list string) :
  plainList xs ->
  forall stack, fold_left (segStep allow) xs stack = (rev xs ++ stack)%list.
Proof.
  induction 1 as [|x xs Hx _ IH]; intros stack; simpl; [reflexivity|].
  rewrite segStep_plain by assumption. rewrite IH.
  now rewrite <- app_assoc.
Qed.

(** Without [allowAboveRoot] only plain segments are kept. *)
Lemma segStep_false_plain (stack : list string) (s : string) :
  plainList stack -> noSlash s = true ->
  plainList (segStep false stack s).
Proof.
  intros HS Hs. unfold segStep.
  destruct (s =? "")%string eqn:E0; simpl; [assumption|].
  destruct (s =? ".")%string eqn:E1; [assumption|].
  destruct (s =? "..")%string eqn:E2.
  - destruct stack as [|top rest]; [constructor|].
    inversion HS; subst.
    destruct (top =? "..")%string; assumption.
  - constructor; [|assumption]. unfold plain. now rewrite E0, E1, E2, Hs.
Qed.

Lemma fold_false_plain (segs : list string) :
  Forall (fun s => noSlash s = true) segs ->
  forall stack, plainList stack ->
  plainList (fold_left (segStep false) segs stack).
Proof.
  induction 1 as [|s segs Hs _ IH]; intros stack HS; simpl; [assumption|].
  apply IH. now apply segStep_false_plain.
Qed.

Lemma segStep_kept (allow : bool) (stack : list string) (s : string) :
  Forall keptSegment stack -> noSlash s = true ->
  Forall keptSegment (segStep allow stack s).
Proof.
  intros HS Hs. unfold segStep.
  destruct (s =? "")%string eqn:E0; simpl; [assumption|].
  destruct (s =? ".")%string eqn:E1; [assumption|].
  assert (Hk : keptSegment s) by (split; [now apply String.eqb_neq|assumption]).
  destruct (s =? "..")%string eqn:E2.
  - destruct stack as [|top rest].
    + destruct allow; repeat constructor; apply Hk.
    + inversion HS; subst.
      destruct (top =? "..")%string; [destruct allow|]; auto.
  - constructor; assumption.
Qed.

Lemma fold_kept (allow : bool) (segs : list string) :
  Forall (fun s => noSlash s = true) segs ->
  forall stack, Forall keptSegment stack ->
  Forall keptSegment (fold_left (segStep allow) segs stack).
Proof.
  induction 1 as [|s segs Hs _ IH]; intros stack HS; simpl; [assumption|].
  apply IH. now apply segStep_kept.
Qed.

Lemma plainList_rev (xs : list string) : plainList xs -> plainList (rev xs).
Proof. unfold plainList. apply Forall_rev. Qed.

(** [normalizeString(p, false)] is a join of plain segments. *)
Lemma normalizeString_false_plain (p : string) :
  exists xs, plainList xs /\ normalizeString p false = Js.join "/" xs.
Proof.
  rewrite normalizeString_segments.
  exists (rev (fold_left (segStep false) (segments p) [])). split.
  - apply plainList_rev, fold_false_plain; [apply segments_noSlash|constructor].
  - reflexivity.
Qed.

Lemma plainList_noSlash (xs : list string) :
  plainList xs -> Forall (fun s => noSlash s = true) xs.
Proof.
  intros H. eapply Forall_impl; [|exact H].
  intros s Hs. now destruct (plain_parts s Hs) as (_ & _ & _ & ?).
Qed.

Lemma segments_slash (q : string) :
  segments (String "/" q) = "" :: segments q.
Proof. reflexivity. Qed.

Lemma segStep_empty (allow : bool) (stack : list string) :
  segStep allow stack "" = stack.
Proof. reflexivity. Qed.

Lemma normalizeString_abs (xs : list string) :
  plainList xs ->
  normalizeString (String "/" (Js.join "/" xs)) false = Js.join "/" xs.
Proof.
  intros Hxs. rewrite normalizeString_segments, segments_slash.
  simpl fold_left. rewrite segStep_empty.
  destruct xs as [|x xs']; [reflexivity|].
  rewrite segments_join by (try discriminate; now apply plainList_noSlash).
  rewrite fold_plain by assumption.
  unfold render. now rewrite app_nil_r, rev_involutive.
Qed.

Lemma fold_snoc_empty (allow : bool) (xs : list string) (stack : list string) :
  fold_left (segStep allow) (xs ++ [""])%list stack
  = fold_left (segStep allow) xs stack.
Proof. rewrite fold_left_app. reflexivity. Qed.

Lemma normalizeString_abs_trailing (xs : list string) :
  plainList xs -> xs <> [] ->
  normalizeString (String "/" (Js.join "/" xs ++ "/")) false = Js.join "/" xs.
Proof.
  intros Hxs Hne. rewrite normalizeString_segments, segments_slash.
  simpl fold_left. rewrite segStep_empty.
  rewrite segments_app_slash.
  rewrite segments_join by (try assumption; now apply plainList_noSlash).
  simpl segments. rewrite fold_snoc_empty.
  rewrite fold_plain by assumption.
  unfold render. now rewrite app_nil_r, rev_involutive.
Qed.

Lemma join_plain_nonempty (xs : list string) :
  plainList xs -> xs <> [] -> Js.join "/" xs <> "".
Proof.
  intros Hxs Hne. destruct xs as [|x xs']; [contradiction|].
  inversion Hxs as [|? ? Hx _]; subst.
  destruct (plain_kept x Hx) as [Hx0 _].
  destruct xs' as [|y ys]; simpl; [assumption|].
  intros C. apply sapp_eq_nil in C as [C _]. contradiction.
Qed.

(** *** The last character *)

Lemma lastIsSlash_app (a x : string) :
  x <> "" -> lastIsSlash (a ++ x) = lastIsSlash x.
Proof.
  intros Hx. unfold lastIsSlash, Js.charAt, Js.len. rewrite slen_app.
  destruct x as [|c x']; [contradiction|]. simpl String.length.
  replace (String.length a + S (String.length x') - 1)
    with (String.length a + String.length x') by lia.
  rewrite get_app_r. simpl. now rewrite Nat.sub_0_r.
Qed.

Lemma get_noSlash (x : string) :
  noSlash x = true ->
  forall k c, String.get k x = Some c -> isPosixPathSeparator c = false.
Proof.
  induction x as [|a x IH]; simpl; intros H k c Hg; [discriminate|].
  apply andb_true_iff in H as [Ha Hx].
  destruct k as [|k].
  - inversion Hg; subst. now apply negb_true_iff.
  - eapply IH; eassumption.
Qed.

Lemma lastIsSlash_noSlash (x : string) :
  noSlash x = true -> lastIsSlash x = false.
Proof.
  intros H. unfold lastIsSlash, Js.charAt.
  destruct (String.get (Js.len x - 1) x) as [c|] eqn:E; [|reflexivity].
  exact (get_noSlash x H _ _ E).
Qed.

Lemma lastIsSlash_slash (a : string) : lastIsSlash (a ++ "/") = true.
Proof. rewrite lastIsSlash_app by discriminate. reflexivity. Qed.

Lemma join_last (xs : list string) (x : string) :
  exists pre, Js.join "/" (xs ++ [x])%list = pre ++ x.
Proof.
  destruct xs as [|y ys].
  - exists "". reflexivity.
  - exists (Js.join "/" (y :: ys) ++ "/").
    rewrite join_snoc by discriminate. now rewrite sapp_assoc.
Qed.

Lemma lastIsSlash_join (xs : list string) :
  plainList xs -> xs <> [] ->
  lastIsSlash (String "/" (Js.join "/" xs)) = false.
Proof.
  intros Hxs Hne.
  destruct (exists_last Hne) as (ys & x & ->).
  destruct (join_last ys x) as (pre & ->).
  assert (Hx : plain x = true).
  { unfold plainList in Hxs. rewrite Forall_forall in Hxs.
    apply Hxs, in_or_app. right. now left. }
  destruct (plain_kept x Hx) as [Hx0 HxS].
  change (String "/" (pre ++ x)) with (String "/" pre ++ x).
  rewrite lastIsSlash_app by assumption.
  now apply lastIsSlash_noSlash.
Qed.

(** *** [normalize] on absolute paths *)

Lemma len_eq0_false (s : string) : s <> "" -> (Js.len s =? 0) = false.
Proof. destruct s; [contradiction | reflexivity]. Qed.

Lemma normalize_abs_unfold (p : string) :
  firstIsSlash p = true ->
  normalize p
  = if Js.len (normalizeString p false) =? 0 then "/"
    else String "/" (if lastIsSlash p
                     then normalizeString p false ++ "/"
                     else normalizeString p false).
Proof.
  intros Habs. unfold normalize.
  rewrite len_eq0_false by (destruct p; [discriminate | discriminate]).
  rewrite Habs. reflexivity.
Qed.

Lemma normalize_abs_normal (p : string) :
  firstIsSlash p = true -> NormalAbs (normalize p).
Proof.
  intros Habs. rewrite normalize_abs_unfold by assumption.
  destruct (normalizeString_false_plain p) as (xs & Hxs & E).
  rewrite E.
  destruct xs as [|x xs'].
  - simpl. exists []. split; [constructor|]. left. reflexivity.
  - assert (Hne : Js.join "/" (x :: xs') <> "")
      by (apply join_plain_nonempty; [assumption|discriminate]).
    replace (Js.len (Js.join "/" (x :: xs')) =? 0) with false.
    2:{ symmetry. apply Nat.eqb_neq. intros C. apply Hne.
        now apply slen_zero. }
    exists (x :: xs'). split; [assumption|].
    destruct (lastIsSlash p).
    + right. split; [discriminate | reflexivity].
    + left. reflexivity.
Qed.

Lemma normalize_normal_fix (r : string) :
  NormalAbs r -> normalize r = r.
Proof.
  intros (xs & Hxs & [E | [Hne E]]); subst r.
  - destruct xs as [|x xs']; [reflexivity|].
    rewrite normalize_abs_unfold by reflexivity.
    rewrite normalizeString_abs by assumption.
    rewrite lastIsSlash_join by (try assumption; discriminate).
    assert (Hne : Js.join "/" (x :: xs') <> "")
      by (apply join_plain_nonempty; [assumption|discriminate]).
    replace (Js.len (Js.join "/" (x :: xs')) =? 0) with false.
    2:{ symmetry. apply Nat.eqb_neq. intros C. apply Hne.
        now apply slen_zero. }
    reflexivity.
  - rewrite normalize_abs_unfold by reflexivity.
    rewrite normalizeString_abs_trailing by assumption.
    change (String "/" (Js.join "/" xs ++ "/"))
      with (String "/" (Js.join "/" xs) ++ "/").
    rewrite lastIsSlash_slash.
    assert (Hne' : Js.join "/" xs <> "")
      by (apply join_plain_nonempty; assumption).
    replace (Js.len (Js.join "/" xs) =? 0) with false.
    2:{ symmetry. apply Nat.eqb_neq. intros C. apply Hne'.
        now apply slen_zero. }
    reflexivity.
Qed.

Lemma NormalAbs_isAbsolute (r : string) :
  NormalAbs r -> isAbsolute r = true.
Proof. intros (xs & _ & [E | [_ E]]); subst r; reflexivity. Qed.

(** *** [normalize] on relative paths stays relative *)

Lemma firstIsSlash_join_kept (xs : list string) :
  Forall keptSegment xs -> firstIsSlash (Js.join "/" xs) = false.
Proof.
  intros H. destruct xs as [|x xs']; [reflexivity|].
  inversion H as [|? ? [Hx0 HxS] _]; subst.
  destruct x as [|c x']; [contradiction|].
  simpl in HxS. apply andb_true_iff in HxS as [Hc _].
  apply negb_true_iff in Hc.
  destruct xs'; simpl; exact Hc.
Qed.

Lemma firstIsSlash_app (a b : string) :
  a <> "" -> firstIsSlash (a ++ b) = firstIsSlash a.
Proof. destruct a; [contradiction | reflexivity]. Qed.

Lemma normalize_absolute_inv (x : string) :
  isAbsolute (normalize x) = true -> firstIsSlash x = true.
Proof.
  destruct (firstIsSlash x) eqn:Habs; [reflexivity|].
  unfold normalize.
  destruct x as [|c x']; [discriminate|].
  rewrite len_eq0_false by discriminate.
  rewrite Habs.
  simpl negb. rewrite normalizeString_segments.
  set (stack := fold_left (segStep true) (segments (String c x')) []).
  assert (Hk : Forall keptSegment (rev stack)).
  { apply Forall_rev, fold_kept; [apply segments_noSlash | constructor]. }
  pose proof (firstIsSlash_join_kept _ Hk) as Hf.
  unfold render.
  destruct (Js.len (Js.join "/" (rev stack)) =? 0) eqn:El.
  - destruct (lastIsSlash (String c x')); discriminate.
  - assert (Hne : Js.join "/" (rev stack) <> "").
    { intros C. rewrite C in El. discriminate. }
    unfold isAbsolute.
    destruct (lastIsSlash (String c x')).
    + rewrite firstIsSlash_app, Hf by assumption.
      now rewrite andb_false_r.
    + rewrite Hf. now rewrite andb_false_r.
Qed.

(** *** [resolve] under an absolute working directory *)

Lemma resolveArgs_absolute (cwd : string) :
  firstIsSlash cwd = true ->
  forall l acc, snd (resolveArgs (l ++ [cwd])%list acc) = true.
Proof.
  intros Habs. induction l as [|p l IH]; intros acc; simpl.
  - destruct cwd as [|c cwd']; [discriminate|]. simpl.
    simpl in Habs. now rewrite Habs.
  - destruct (Js.len p =? 0); [apply IH|].
    destruct (firstIsSlash p); [reflexivity | apply IH].
Qed.

Lemma resolve_normal (cwd : string) (args : list string) :
  firstIsSlash cwd = true -> NormalAbs (resolve cwd args).
Proof.
  intros Habs. unfold resolve.
  pose proof (resolveArgs_absolute cwd Habs (rev args) "") as H.
  change (rev (cwd :: args)) with (rev args ++ [cwd])%list.
  destruct (resolveArgs (rev args ++ [cwd])%list "") as [rp ra].
  simpl in H. subst ra. simpl negb. cbv iota.
  destruct (normalizeString_false_plain rp) as (xs & Hxs & E).
  rewrite E. exists xs. split; [assumption|]. left. reflexivity.
Qed.

End WrapperTheory.
Module UtilsTheory.
Import path Segments MachineInv NormalForm PathTheory MachineTheory
       NormalizeTheory WrapperTheory.

Lemma createSafePath_normal (w : World) (x : string) :
  NormalAbs (createSafePath w x).
Proof.
  unfold createSafePath.
  destruct (isAbsolute (normalize x)) eqn:E.
  - apply normalize_abs_normal. now apply normalize_absolute_inv.
  - apply resolve_normal. apply cwd_absolute.
Qed.

Lemma createSafePath_fix (w : World) (r : string) :
  NormalAbs r -> createSafePath w r = r.
Proof.
  intros H. unfold createSafePath.
  rewrite (normalize_normal_fix r H), (NormalAbs_isAbsolute r H).
  reflexivity.
Qed.

Lemma forallb_plainList (xs : list string) :
  forallb plain xs = true <-> plainList xs.
Proof.
  unfold plainList. rewrite forallb_forall, Forall_forall. reflexivity.
Qed.

Lemma NormalAbs_bool (r : string) :
  NormalAbs r -> isNormalAbsolute r = true.
Proof.
  intros (xs & Hxs & [E | [Hne E]]); subst r; unfold isNormalAbsolute.
  - simpl andb. destruct xs as [|x xs']; [reflexivity|].
    rewrite segments_join
      by (try discriminate; now apply plainList_noSlash).
    apply forallb_plainList in Hxs. rewrite Hxs.
    now rewrite orb_true_r.
  - simpl andb. rewrite segments_app_slash.
    rewrite segments_join by (try assumption; now apply plainList_noSlash).
    simpl segments. rewrite rev_app_distr. simpl rev. simpl app.
    destruct (rev xs) as [|y ys] eqn:Er.
    + exfalso. apply Hne. rewrite <- (rev_involutive xs), Er. reflexivity.
    + assert (Hr : forallb plain (y :: ys) = true).
      { apply forallb_plainList. rewrite <- Er. now apply plainList_rev. }
      rewrite Hr. simpl. now rewrite !orb_true_r.
Qed.

Lemma isPlainAbsolute_spec (d : string) :
  isPlainAbsolute d = true -> exists xs, PlainAbs d xs.
Proof.
  destruct d as [|c rest]; [discriminate|]. simpl.
  intros H. apply andb_true_iff in H as [Hc Hall].
  apply Ascii.eqb_eq in Hc. subst c.
  exists (segments rest). split; [|split].
  - now rewrite join_segments.
  - apply segments_nonnil.
  - now apply forallb_plainList.
Qed.

Lemma PlainAbs_bool (d : string) (xs : list string) :
  PlainAbs d xs -> isPlainAbsolute d = true.
Proof.
  intros (-> & Hne & Hxs). simpl.
  rewrite segments_join by (try assumption; now apply plainList_noSlash).
  now apply forallb_plainList.
Qed.

Lemma PlainAbs_normal (d : string) (xs : list string) :
  PlainAbs d xs -> NormalAbs d.
Proof. intros (-> & _ & Hxs). exists xs. split; [assumption|]. now left. Qed.

Lemma PlainAbs_nonempty (d : string) (xs : list string) :
  PlainAbs d xs -> d <> "".
Proof. intros (-> & _). discriminate. Qed.

Lemma PlainAbs_snoc (d : string) (xs : list string) (n : string) :
  PlainAbs d xs -> plain n = true ->
  PlainAbs (d ++ "/" ++ n) (xs ++ [n]).
Proof.
  intros (-> & Hne & Hxs) Hn. split; [|split].
  - rewrite join_snoc by assumption. reflexivity.
  - destruct xs; discriminate.
  - unfold plainList. apply Forall_app. split; [assumption|].
    constructor; [assumption|constructor].
Qed.

Lemma len_pos (s : string) : s <> "" -> (0 <? Js.len s) = true.
Proof. destruct s; [contradiction|reflexivity]. Qed.

Lemma plain_nonempty (n : string) : plain n = true -> n <> "".
Proof. intros H. now destruct (plain_kept n H). Qed.

(** Joining a plain segment to a plain absolute path appends it. *)
Lemma joinSafePaths_plain (w : World) (d n : string) (xs : list string) :
  PlainAbs d xs -> plain n = true ->
  joinSafePaths w [d; n] = d ++ "/" ++ n.
Proof.
  intros Hd Hn. unfold joinSafePaths, path.join. simpl map. simpl joinArgs.
  rewrite (len_pos d) by (eapply PlainAbs_nonempty; eassumption).
  rewrite (len_pos n) by (now apply plain_nonempty).
  pose proof (PlainAbs_normal _ _ (PlainAbs_snoc d xs n Hd Hn)) as HN.
  change (d ++ String "/" n) with (d ++ "/" ++ n).
  rewrite (normalize_normal_fix _ HN).
  now apply createSafePath_fix.
Qed.

Lemma noSlash_app (a b : string) :
  noSlash a = true -> noSlash b = true -> noSlash (a ++ b) = true.
Proof.
  intros Ha Hb. induction a as [|c a IH]; simpl in *; [assumption|].
  apply andb_true_iff in Ha as [Hc Ha]. now rewrite Hc, IH.
Qed.


Lemma join_snoc_suffix (xs : list string) (n sfx : string) :
  Js.join "/" (xs ++ [(n ++ sfx)%string])%list = Js.join "/" (xs ++ [n])%list ++ sfx.
Proof.
  destruct xs as [|y ys].
  - reflexivity.
  - rewrite !join_snoc by discriminate.
    change (Js.join "/" (y :: ys) ++ String "/" (n ++ sfx))
      with (Js.join "/" (y :: ys) ++ (String "/" n ++ sfx)).
    now rewrite sapp_assoc.
Qed.


End UtilsTheory.
Module ComposeTheory.
Import path Segments MachineInv NormalForm PathTheory MachineTheory
       NormalizeTheory WrapperTheory UtilsTheory.

(** *** Normalizing first does not change what a path resolves to *)

Lemma segStep_true_shape (stack : list string) (s : string) :
  Forall dotdotOrPlain stack -> noSlash s = true ->
  Forall dotdotOrPlain (segStep true stack s).
Proof.
  intros HS Hs. unfold segStep.
  destruct (s =? "")%string eqn:E0; simpl; [assumption|].
  destruct (s =? ".")%string eqn:E1; [assumption|].
  destruct (s =? "..")%string eqn:E2.
  - apply String.eqb_eq in E2. subst s.
    destruct stack as [|top rest]; [repeat constructor; now left|].
    inversion HS; subst.
    destruct (top =? "..")%string; [|assumption].
    constructor; [now left | assumption].
  - constructor; [|assumption]. right. unfold plain.
    now rewrite E0, E1, E2, Hs.
Qed.

Lemma fold_true_shape (segs : list string) :
  Forall (fun s => noSlash s = true) segs ->
  forall stack, Forall dotdotOrPlain stack ->
  Forall dotdotOrPlain (fold_left (segStep true) segs stack).
Proof.
  induction 1 as [|s segs Hs _ IH]; intros stack HS; simpl; [assumption|].
  apply IH. now apply segStep_true_shape.
Qed.

Lemma segStep_dotdot_cons (allow : bool) (top : string) (rest : list string) :
  segStep allow (top :: rest) ".."
  = if (top =? "..")%string
    then (if allow then ".." :: top :: rest else top :: rest)
    else rest.
Proof. reflexivity. Qed.

Lemma step_true_then_false (T S : list string) (s : string) :
  Forall dotdotOrPlain T -> noSlash s = true ->
  fold_left (segStep false) (rev (segStep true T s)) S
  = segStep false (fold_left (segStep false) (rev T) S) s.
Proof.
  intros HT Hs.
  destruct (s =? "")%string eqn:E0.
  { apply String.eqb_eq in E0. subst s. reflexivity. }
  destruct (s =? ".")%string eqn:E1.
  { apply String.eqb_eq in E1. subst s. reflexivity. }
  destruct (s =? "..")%string eqn:E2.
  - apply String.eqb_eq in E2. subst s.
    destruct T as [|top rest]; [reflexivity|].
    destruct (top =? "..")%string eqn:Et.
    + rewrite segStep_dotdot_cons, Et.
      simpl rev. rewrite !fold_left_app. reflexivity.
    + rewrite segStep_dotdot_cons, Et.
      simpl rev. rewrite fold_left_app. cbn [fold_left].
      inversion HT as [|? ? [Htop|Htop] _]; subst.
      * rewrite String.eqb_refl in Et. discriminate.
      * rewrite (segStep_plain false _ top Htop).
        now rewrite segStep_dotdot_cons, Et.
  - assert (Hp : plain s = true).
    { unfold plain. now rewrite E0, E1, E2, Hs. }
    rewrite !(segStep_plain _ _ s Hp). simpl rev.
    rewrite fold_left_app. cbn [fold_left].
    now rewrite (segStep_plain false _ s Hp).
Qed.

Lemma fold_true_then_false (X : list string) :
  Forall (fun s => noSlash s = true) X ->
  forall S,
    fold_left (segStep false) (rev (fold_left (segStep true) X [])) S
    = fold_left (segStep false) X S.
Proof.
  induction X as [|s X IH] using rev_ind; intros HX S; [reflexivity|].
  apply Forall_app in HX as [HX Hs]. inversion Hs as [|? ? Hs' _]; subst.
  rewrite !fold_left_app. cbn [fold_left].
  rewrite <- (IH HX S).
  apply step_true_then_false; [|assumption].
  apply fold_true_shape; [assumption | constructor].
Qed.

Lemma normalize_nonempty (p : string) : normalize p <> "".
Proof.
  unfold normalize.
  destruct (Js.len p =? 0); [discriminate|].
  destruct (Js.len (normalizeString p (negb (firstIsSlash p))) =? 0) eqn:E.
  - destruct (firstIsSlash p); [discriminate|].
    destruct (lastIsSlash p); discriminate.
  - assert (Hne : normalizeString p (negb (firstIsSlash p)) <> "").
    { intros C. rewrite C in E. discriminate. }
    destruct (firstIsSlash p); [discriminate|].
    destruct (lastIsSlash p); [|assumption].
    intros C. apply sapp_eq_nil in C as [C _]. contradiction.
Qed.

Lemma isAbsolute_firstIsSlash (p : string) : isAbsolute p = firstIsSlash p.
Proof. destruct p; reflexivity. Qed.

Lemma normalize_relative (p : string) :
  firstIsSlash p = false -> firstIsSlash (normalize p) = false.
Proof.
  intros H. destruct (firstIsSlash (normalize p)) eqn:E; [|reflexivity].
  rewrite <- isAbsolute_firstIsSlash in E.
  apply normalize_absolute_inv in E. congruence.
Qed.

(** Segments of a relative path, normalized or not, act alike on a
    stack of plain segments. *)
Lemma normalize_relative_fold (p : string) (S : list string) :
  firstIsSlash p = false ->
  fold_left (segStep false) (segments (normalize p)) S
  = fold_left (segStep false) (segments p) S.
Proof.
  intros Hrel. unfold normalize.
  destruct p as [|c p']; [reflexivity|].
  rewrite len_eq0_false by discriminate. rewrite Hrel. simpl negb.
  rewrite normalizeString_segments.
  set (X := segments (String c p')).
  assert (HX : Forall (fun s => noSlash s = true) X)
    by apply segments_noSlash.
  rewrite <- (fold_true_then_false X HX S).
  set (T := fold_left (segStep true) X []).
  assert (HT : Forall keptSegment T)
    by (apply fold_kept; [assumption | constructor]).
  unfold render.
  destruct (Js.len (Js.join "/" (rev T)) =? 0) eqn:El.
  - assert (ET : T = []).
    { apply render_empty_inv; [assumption|].
      unfold render. now apply slen_zero, Nat.eqb_eq. }
    rewrite ET. destruct (lastIsSlash (String c p')); reflexivity.
  - assert (Hne : rev T <> []).
    { intros C. rewrite C in El. discriminate. }
    assert (HrT : Forall (fun s => noSlash s = true) (rev T)).
    { apply Forall_rev. eapply Forall_impl; [|exact HT].
      now intros s [_ H]. }
    destruct (lastIsSlash (String c p')).
    + rewrite segments_app_slash, segments_join by assumption.
      simpl segments. now rewrite fold_snoc_empty.
    + now rewrite segments_join by assumption.
Qed.

Lemma cwd_nonempty (w : World) : cwd w <> "".
Proof.
  pose proof (cwd_absolute w) as H. destruct (cwd w); [discriminate|discriminate].
Qed.

(** Resolving a relative, non-empty path against the working
    directory. *)
Lemma resolve_relative (w : World) (n : string) :
  firstIsSlash n = false -> n <> "" ->
  resolve (cwd w) [cwd w; n]
  = String "/" (render (fold_left (segStep false) (segments n) (cwdStack w))).
Proof.
  intros Hrel Hne. unfold resolve. simpl rev. simpl resolveArgs.
  rewrite (len_eq0_false n Hne), Hrel.
  rewrite (len_eq0_false (cwd w) (cwd_nonempty w)), (cwd_absolute w).
  simpl negb. cbv iota.
  rewrite normalizeString_segments.
  change (cwd w ++ "/" ++ n ++ "/" ++ "")
    with (cwd w ++ String "/" (n ++ String "/" "")).
  rewrite !segments_app_slash. simpl (segments "").
  rewrite !fold_left_app. simpl (fold_left _ [""] _).
  rewrite segStep_empty. reflexivity.
Qed.

(** The result of [createSafePath], by cases on the first character. *)
Lemma createSafePath_relative (w : World) (p : string) :
  firstIsSlash p = false ->
  createSafePath w p = String "/" (render (absStack w p)).
Proof.
  intros Hrel. unfold createSafePath, absStack.
  rewrite isAbsolute_firstIsSlash, (normalize_relative p Hrel), Hrel.
  rewrite (resolve_relative w (normalize p)
             (normalize_relative p Hrel) (normalize_nonempty p)).
  now rewrite normalize_relative_fold.
Qed.

Lemma createSafePath_absolute (w : World) (p : string) :
  firstIsSlash p = true -> createSafePath w p = normalize p.
Proof.
  intros Habs. unfold createSafePath.
  now rewrite (NormalAbs_isAbsolute _ (normalize_abs_normal p Habs)).
Qed.

Lemma createSafePath_normalize (w : World) (q : string) :
  createSafePath w (normalize q) = createSafePath w q.
Proof.
  destruct (firstIsSlash q) eqn:E.
  - rewrite (createSafePath_absolute w q E).
    apply createSafePath_fix. now apply normalize_abs_normal.
  - rewrite (createSafePath_relative w q E).
    rewrite (createSafePath_relative w _ (normalize_relative q E)).
    unfold absStack. rewrite (normalize_relative q E), E.
    now rewrite normalize_relative_fold.
Qed.

(** The stack of a normalized absolute path is the list it joins. *)
Lemma stack_of_join (xs : list string) :
  plainList xs ->
  fold_left (segStep false) (segments (String "/" (Js.join "/" xs))) []
  = rev xs
  /\ (xs <> [] ->
      fold_left (segStep false)
        (segments (String "/" (Js.join "/" xs ++ "/"))) []
      = rev xs).
Proof.
  intros Hxs. split; [|intros Hne]; rewrite segments_slash;
    simpl fold_left; rewrite segStep_empty.
  - destruct xs as [|x xs']; [reflexivity|].
    rewrite segments_join by (try discriminate; now apply plainList_noSlash).
    rewrite fold_plain by assumption. now rewrite app_nil_r.
  - rewrite segments_app_slash.
    rewrite segments_join by (try assumption; now apply plainList_noSlash).
    simpl segments. rewrite fold_snoc_empty.
    rewrite fold_plain by assumption. now rewrite app_nil_r.
Qed.

Lemma stack_of_render (A : list string) :
  plainList A ->
  fold_left (segStep false) (segments (String "/" (render A))) [] = A
  /\ (A <> [] ->
      fold_left (segStep false) (segments (String "/" (render A ++ "/"))) []
      = A).
Proof.
  intros HA. unfold render.
  destruct (stack_of_join (rev A) (plainList_rev A HA)) as [H1 H2].
  rewrite rev_involutive in H1, H2. split; [exact H1|].
  intros Hne. apply H2. intros C. apply Hne.
  rewrite <- (rev_involutive A), C. reflexivity.
Qed.

(** The shape of [normalize] on an absolute path. *)
Lemma normalize_abs_shape (q : string) :
  firstIsSlash q = true ->
  let A := fold_left (segStep false) (segments q) [] in
  normalize q = String "/" (render A)
  \/ (A <> [] /\ normalize q = String "/" (render A ++ "/")).
Proof.
  intros Habs A. rewrite normalize_abs_unfold by assumption.
  rewrite normalizeString_segments. fold A.
  assert (HA : Forall keptSegment A)
    by (apply fold_kept; [apply segments_noSlash | constructor]).
  destruct (Js.len (render A) =? 0) eqn:El.
  - left. assert (EA : A = []).
    { apply render_empty_inv; [assumption|].
      now apply slen_zero, Nat.eqb_eq. }
    now rewrite EA.
  - destruct (lastIsSlash q); [right | left; reflexivity].
    split; [|reflexivity]. intros C. rewrite C in El. discriminate.
Qed.

Lemma stack_of_createSafePath (w : World) (q : string) :
  fold_left (segStep false) (segments (createSafePath w q)) []
  = absStack w q.
Proof.
  assert (HA : plainList (absStack w q)).
  { unfold absStack.
    apply fold_false_plain; [apply segments_noSlash|].
    destruct (firstIsSlash q); [constructor|].
    unfold cwdStack.
    apply fold_false_plain; [apply segments_noSlash | constructor]. }
  destruct (stack_of_render _ HA) as [H1 H2].
  destruct (firstIsSlash q) eqn:E.
  - rewrite (createSafePath_absolute w q E).
    unfold absStack in *. rewrite E in *.
    destruct (normalize_abs_shape q E) as [-> | [Hne ->]];
      [exact H1 | exact (H2 Hne)].
  - rewrite (createSafePath_relative w q E). exact H1.
Qed.

Lemma firstIsSlash_createSafePath (w : World) (q : string) :
  firstIsSlash (createSafePath w q) = true.
Proof.
  rewrite <- isAbsolute_firstIsSlash.
  apply NormalAbs_isAbsolute, createSafePath_normal.
Qed.

Lemma createSafePath_nonempty (w : World) (q : string) :
  createSafePath w q <> "".
Proof.
  pose proof (firstIsSlash_createSafePath w q) as H.
  destruct (createSafePath w q); discriminate.
Qed.

(** [joinSafePaths] of two arguments. *)
Lemma joinSafePaths_empty_r (w : World) (a : string) :
  joinSafePaths w [a; ""] = createSafePath w a.
Proof.
  unfold joinSafePaths, path.join. simpl map. simpl joinArgs.
  destruct a as [|c a']; [reflexivity|].
  simpl (0 <? Js.len _). cbv iota. apply createSafePath_normalize.
Qed.

Lemma joinSafePaths_two (w : World) (a b : string) :
  a <> "" -> b <> "" ->
  joinSafePaths w [a; b] = createSafePath w (a ++ String "/" b).
Proof.
  intros Ha Hb. unfold joinSafePaths, path.join. simpl map. simpl joinArgs.
  rewrite (len_pos a Ha), (len_pos b Hb).
  apply createSafePath_normalize.
Qed.

(** Joining onto an absolute path: only its stack and the last
    character of the joined part count. *)
Lemma createSafePath_abs_app (w : World) (r b : string) :
  firstIsSlash r = true -> b <> "" ->
  let A := fold_left (segStep false) (segments b)
             (fold_left (segStep false) (segments r) []) in
  createSafePath w (r ++ String "/" b)
  = if (Js.len (render A) =? 0) then "/"
    else String "/" (if lastIsSlash b then render A ++ "/" else render A).
Proof.
  intros Hr Hb A.
  assert (Habs : firstIsSlash (r ++ String "/" b) = true).
  { destruct r; [discriminate | exact Hr]. }
  rewrite (createSafePath_absolute w _ Habs).
  rewrite normalize_abs_unfold by assumption.
  rewrite normalizeString_segments, segments_app_slash, fold_left_app.
  fold A.
  change (r ++ String "/" b) with (r ++ (String "/" b)).
  rewrite lastIsSlash_app by discriminate.
  change (String "/" b) with ("/" ++ b).
  now rewrite lastIsSlash_app by assumption.
Qed.

Lemma join_depends_on_stack (w : World) (r r' b : string) :
  firstIsSlash r = true -> firstIsSlash r' = true -> b <> "" ->
  fold_left (segStep false) (segments r) []
  = fold_left (segStep false) (segments r') [] ->
  createSafePath w (r ++ String "/" b) = createSafePath w (r' ++ String "/" b).
Proof.
  intros Hr Hr' Hb E.
  rewrite (createSafePath_abs_app w r b Hr Hb).
  rewrite (createSafePath_abs_app w r' b Hr' Hb).
  cbv zeta. now rewrite E.
Qed.



End ComposeTheory.
Module FactoryTheory.
Import Spec.

Lemma MB_nonneg (n : Z) : (0 <= n)%Z -> MB n = Return (megabytes n).
Proof.
  intros H. unfold MB, createBytes, megabytes.
  destruct (Z.ltb_spec (n * 1024 * 1024) 0); [lia|]. f_equal. lia.
Qed.

Lemma finalOptions_total (w : World) (d options : LoggerOptions) :
  exists o, finalOptions w d options = Return o.
Proof.
  unfold finalOptions.
  destruct (read (maxFileSize options)); [eexists; reflexivity|].
  destruct (read (maxFileSize d)); eexists; reflexivity.
Qed.

Lemma isValidEnvironment_name (e : Environment) :
  isValidEnvironment (Environment_name e) = true
  /\ defaultOptionsAt (Environment_name e) = Some (defaultOptions e).
Proof. destruct e; split; reflexivity. Qed.

Lemma isValidEnvironment_inv (s : string) :
  isValidEnvironment s = true -> exists e, s = Environment_name e.
Proof.
  unfold isValidEnvironment. simpl. intros H.
  destruct (String.eqb_spec s "development") as [E|_];
    [now exists development|].
  destruct (String.eqb_spec s "production") as [E|_];
    [now exists production|].
  destruct (String.eqb_spec s "test") as [E|_]; [now exists test|].
  discriminate.
Qed.


(** The constructor calls: the first one that throws ends the run; if
    none does, the array is the one the pushes describe. *)
Lemma newTransports_eq (w : World) (o : Merged.t) :
  newTransports w o
  = ([], match firstFailure w (constructed w o) with
         | Some x => Throw x
         | None => Return (transports w o)
         end).
Proof.
  unfold newTransports, transports, constructed, consoleSinks, fileSinks,
    ConsoleSink, RotatedFile, CombinedFile, ErrorFile, WarningFile, new, push.
  destruct (truthy (read (Merged.enableConsoleLogging o)));
    destruct (truthy (read (Merged.enableFileLogging o)));
    destruct (truthy (read (Merged.useDailyRotation o)));
    destruct (truthy (read (Merged.separateErrorLog o)));
    destruct (truthy (read (Merged.separateWarnLog o)));
    cbn [app firstFailure];
    repeat match goal with
           | |- context [construct w ?t] =>
               destruct (construct w t); cbn [bind ret throw app]
           end;
    cbn [bind ret throw app]; reflexivity.
Qed.

Lemma firstFailure_In (w : World) (ts : list winston.transport)
    (x : Exception) :
  firstFailure w ts = Some x -> exists t, In t ts /\ construct w t = Some x.
Proof.
  induction ts as [|t ts IH]; simpl; [discriminate|].
  destruct (construct w t) as [e|] eqn:E.
  - intros H. inversion H; subst. exists t. split; [now left | assumption].
  - intros H. destruct (IH H) as (t' & Hin & Ht').
    exists t'. split; [now right | assumption].
Qed.


Lemma createLogger_valid (w : World) (options : LoggerOptions)
    (e : Environment) :
  orString (NODE_ENV w) "development" = Environment_name e ->
  exists o,
    finalOptions w (defaultOptions e) options = Return o
    /\ createLogger w options
       = ((warnPart w ++ fst (ensureLogDir w (logDir w o)))%list,
          match snd (ensureLogDir w (logDir w o)) with
          | Return _ =>
              match firstFailure w (constructed w o) with
              | Some x => Throw x
              | None => Return (winston_createLogger w o)
              end
          | Throw x => Throw x
          end).
Proof.
  intros Henv.
  destruct (finalOptions_total w (defaultOptions e) options) as [o Ho].
  exists o. split; [assumption|].
  unfold createLogger. rewrite Henv.
  destruct (isValidEnvironment_name e) as [Hv Hd]. rewrite Hv, Hd.
  unfold warnPart, warnNoEnv, winston_createLogger.
  destruct (truthyString (NODE_ENV w));
    cbv [bind ret lift emit throw negb]; rewrite Ho;
    rewrite (newTransports_eq w o);
    destruct (ensureLogDir w (logDir w o)) as [t [u|x]]; simpl;
    destruct (firstFailure w (constructed w o));
    rewrite ?app_nil_r; reflexivity.
Qed.

Lemma createLogger_invalid (w : World) (options : LoggerOptions) :
  isValidEnvironment (orString (NODE_ENV w) "development") = false ->
  createLogger w options
  = (warnPart w,
     Throw (Error ("Invalid environment: "
                   ++ orString (NODE_ENV w) "development"))).
Proof.
  intros H. unfold createLogger. rewrite H. unfold warnPart, warnNoEnv.
  destruct (truthyString (NODE_ENV w)); reflexivity.
Qed.

(** A returned logger was built from the resolved configuration of a
    recognized environment. *)
Lemma createLogger_inv (w : World) (options : LoggerOptions)
    (t : list Effect) (lg : winston.Logger) :
  createLogger w options = (t, Return lg) ->
  exists e o,
    orString (NODE_ENV w) "development" = Environment_name e
    /\ finalOptions w (defaultOptions e) options = Return o
    /\ lg = winston_createLogger w o.
Proof.
  intros H.
  destruct (isValidEnvironment (orString (NODE_ENV w) "development")) eqn:Hv.
  - destruct (isValidEnvironment_inv _ Hv) as [e He].
    destruct (createLogger_valid w options e He) as (o & Ho & Hc).
    exists e, o. repeat split; try assumption.
    rewrite Hc in H.
    destruct (snd (ensureLogDir w (logDir w o)));
      [destruct (firstFailure w (constructed w o))|];
      inversion H; reflexivity.
  - rewrite (createLogger_invalid w options Hv) in H. discriminate.
Qed.



Lemma spread_fmap {A B} (f : A -> B) (x y : field A) :
  fmap f (spread x y) = spread (fmap f x) (fmap f y).
Proof. destruct x, y; reflexivity. Qed.

(** Every property but the three computed ones comes from the spread. *)
Lemma finalOptions_property (w : World) (d options : LoggerOptions)
    (o : Merged.t) (k : Key) :
  finalOptions w d options = Return o ->
  isComputedKey k = false ->
  Merged.getProperty o k = spread (getProperty d k) (getProperty options k).
Proof.
  unfold finalOptions. intros H Hk.
  destruct (read (maxFileSize options)) as [v|];
    [|destruct (read (maxFileSize d)) as [v|]];
    simpl in H; inversion H; subst o; clear H;
    destruct k; try discriminate; simpl; apply spread_fmap.
Qed.

Lemma finalOptions_computed (w : World) (d options : LoggerOptions)
    (o : Merged.t) :
  finalOptions w d options = Return o ->
  Merged.logName o = nullish (read (logName options)) "app"
  /\ Merged.logDirectory o = safeLogDirectory w options
  /\ Merged.maxFileSize o
     = match read (maxFileSize options) with
       | Some v => v
       | None => match read (maxFileSize d) with
                 | Some v => v
                 | None => megabytes 5
                 end
       end.
Proof.
  unfold finalOptions. intros H.
  destruct (read (maxFileSize options)) as [v|];
    [|destruct (read (maxFileSize d)) as [v|]];
    simpl in H; inversion H; subst o; clear H; repeat split.
Qed.

End FactoryTheory.
Module SinkTheory.
Import Spec FactoryTheory.

Lemma transports_sinks (w : World) (o : Merged.t) :
  transports w o = sinks w o.
Proof.
  unfold transports, sinks, consoleSinks, fileSinks, customSinks, push,
    ConsoleSink, RotatedFile, CombinedFile, ErrorFile, WarningFile.
  destruct (truthy (read (Merged.enableConsoleLogging o)));
    destruct (truthy (read (Merged.enableFileLogging o)));
    destruct (truthy (read (Merged.useDailyRotation o)));
    destruct (truthy (read (Merged.separateErrorLog o)));
    destruct (truthy (read (Merged.separateWarnLog o)));
    destruct (read (Merged.customTransports o)) as [cs|];
    simpl; rewrite ?app_nil_r; reflexivity.
Qed.

(** The resolved configuration, property by property. *)
Lemma finalOptions_fields (w : World) (d options : LoggerOptions)
    (o : Merged.t) :
  finalOptions w d options = Return o ->
  Merged.level o = spread (level d) (level options)
  /\ Merged.enableFileLogging o
     = spread (enableFileLogging d) (enableFileLogging options)
  /\ Merged.separateErrorLog o
     = spread (separateErrorLog d) (separateErrorLog options)
  /\ Merged.separateWarnLog o
     = spread (separateWarnLog d) (separateWarnLog options)
  /\ Merged.customTransports o
     = spread (customTransports d) (customTransports options).
Proof.
  unfold finalOptions. intros H.
  destruct (read (maxFileSize options)) as [v|];
    [|destruct (read (maxFileSize d)) as [v|]];
    simpl in H; inversion H; subst o; clear H; repeat split.
Qed.


Lemma safeLogDirectory_default (w : World) (options : LoggerOptions) :
  truthyString (read (logDirectory options)) = false ->
  safeLogDirectory w options = getDefaultLogPath w.
Proof.
  unfold safeLogDirectory, truthyString.
  destruct (read (logDirectory options)) as [dir|]; [|reflexivity].
  intros H. now rewrite H.
Qed.

Lemma prettyConsoleFormat_LEVEL (E : Engine) (i : Info) :
  LEVEL (prettyConsoleFormat E i) = LEVEL i.
Proof.
  unfold prettyConsoleFormat.
  destruct (message i) as [m|]; [|reflexivity].
  destruct (Js.startsWith m "{"); [|reflexivity].
  destruct (JSON_parse E m); reflexivity.
Qed.

End SinkTheory.

(* ================================================================== *)
(** ** The claims *)
(* ================================================================== *)

Module Claims.
Import Spec path Segments NormalForm PathTheory WrapperTheory UtilsTheory
       ComposeTheory FactoryTheory SinkTheory.

(** C1. For each of the three recognized environments, the environment
    is accepted, its defaults are looked up, and resolving the empty
    options object against them yields a configuration whose level, sink
    toggles, formatting toggles, size and rotation limits are exactly the
    row of the table of section 4.3. *)
Theorem C1_environment_defaults (w : World) (env : Environment) :
  isValidEnvironment (Environment_name env) = true
  /\ exists d o,
       defaultOptionsAt (Environment_name env) = Some d
       /\ finalOptions w d emptyOptions = Return o
       /\ matchesRow o (environmentDefaults env).
Proof.
  split; [apply isValidEnvironment_name|].
  exists (defaultOptions env).
  destruct env; eexists; (split; [reflexivity|]);
    (split; [reflexivity|]); repeat split.
Qed.


(** C6. For every options object and every defaults object, the
    resolved [maxFileSize] is the caller's value when it has one, else
    the defaults' value when they have one, else [MB(5)], which is
    5 * 1,048,576; each recognized environment has a default, so there
    the second case always applies when the caller gives none. *)
Theorem C6_maxFileSize_precedence (w : World) (d options : LoggerOptions) :
  MB 5 = Return (megabytes 5)
  /\ (exists o,
        finalOptions w d options = Return o
        /\ Merged.maxFileSize o
           = match read (maxFileSize options) with
             | Some v => v
             | None => match read (maxFileSize d) with
                       | Some v => v
                       | None => megabytes 5
                       end
             end)
  /\ (forall env : Environment,
        exists o,
          finalOptions w (defaultOptions env) options = Return o
          /\ Merged.maxFileSize o
             = match read (maxFileSize options) with
               | Some v => v
               | None => megabytes (row_maxSizeMB (environmentDefaults env))
               end).
Proof.
  split; [reflexivity|]. split.
  - destruct (finalOptions_total w d options) as [o Ho].
    exists o. split; [assumption|].
    now destruct (finalOptions_computed w d options o Ho) as (_ & _ & ?).
  - intros env.
    destruct (finalOptions_total w (defaultOptions env) options) as [o Ho].
    exists o. split; [assumption|].
    destruct (finalOptions_computed w _ options o Ho) as (_ & _ & ->).
    destruct (read (maxFileSize options)); [reflexivity|].
    destruct env; reflexivity.
Qed.

(** C7. For every n >= 0, [MB n] returns n * 1,048,576; for every
    n < 0, [createBytes n] throws the negative-size error; and
    [createBytes] accepts every n >= 0, however large. *)
Theorem C7_byte_sizes (n : Z) :
  ((0 <= n)%Z -> MB n = Return (n * 1048576)%Z)
  /\ ((n < 0)%Z ->
      exists e, createBytes n = Throw e /\ InvalidSize e)
  /\ ((0 <= n)%Z -> createBytes n = Return n).
Proof.
  split; [|split].
  - intros H. now apply MB_nonneg.
  - intros H. exists (Error "Bytes cannot be negative").
    split; [|reflexivity]. unfold createBytes.
    destruct (Z.ltb_spec n 0); [reflexivity|lia].
  - intros H. unfold createBytes.
    destruct (Z.ltb_spec n 0); [lia|reflexivity].
Qed.

Lemma C7_byte_sizes_witness :
  MB 10 = Return 10485760%Z
  /\ (exists e, createBytes (-1) = Throw e /\ InvalidSize e)
  /\ createBytes (2 ^ 80) = Return (2 ^ 80)%Z.
Proof.
  split; [|split].
  - apply (proj1 (C7_byte_sizes 10)). lia.
  - apply (proj1 (proj2 (C7_byte_sizes (-1)))). lia.
  - apply (proj2 (proj2 (C7_byte_sizes (2 ^ 80)))). lia.
Defined.

(** C10. If the caller's options object has a property other than
    logName, logDirectory and maxFileSize present and set to undefined,
    the merged configuration has that property undefined, whatever the
    defaults hold for it. *)
Theorem C10_explicit_undefined_wins (w : World) (d options : LoggerOptions)
    (o : Merged.t) (k : Key) :
  finalOptions w d options = Return o ->
  isComputedKey k = false ->
  getProperty options k = Undefined ->
  Merged.getProperty o k = Undefined.
Proof.
  intros Ho Hk Hu.
  rewrite (finalOptions_property w d options o k Ho Hk), Hu. reflexivity.
Qed.





(** C9. [createSafePath] is idempotent; its result is always an absolute
    path that [path.normalize] leaves unchanged, made of ordinary
    segments only; and a relative input is resolved against the current
    working directory. *)
Theorem C9_createSafePath_idempotent (w : World) (x : string) :
  createSafePath w (createSafePath w x) = createSafePath w x
  /\ path.isAbsolute (createSafePath w x) = true
  /\ path.normalize (createSafePath w x) = createSafePath w x
  /\ isNormalAbsolute (createSafePath w x) = true
  /\ (firstIsSlash x = false ->
      createSafePath w x
      = path.resolve (cwd w) [cwd w; path.normalize x]).
Proof.
  pose proof (createSafePath_normal w x) as HN.
  split; [|split; [|split; [|split]]].
  - now apply createSafePath_fix.
  - now apply NormalAbs_isAbsolute.
  - now apply normalize_normal_fix.
  - now apply NormalAbs_bool.
  - intros Hrel. unfold createSafePath.
    destruct (isAbsolute (normalize x)) eqn:E; [|reflexivity].
    apply normalize_absolute_inv in E. congruence.
Qed.

Lemma C9_createSafePath_idempotent_witness :
  createSafePath (demoWorld None) "./logs/../var//log"
  = path.resolve "/srv/app" ["/srv/app"; path.normalize "./logs/../var//log"].
Proof.
  apply (proj2 (proj2 (proj2 (proj2
    (C9_createSafePath_idempotent (demoWorld None) "./logs/../var//log"))))).
  reflexivity.
Defined.

(** C5, amended.  The resolved configuration is the merge, property by
    property, in which the caller's options win over the environment
    defaults; [logName] is the caller's, or "app" when the caller gives
    none; [logDirectory] is the default log path (the working directory
    joined with "logs") when the caller gives none or gives the empty
    string, else [createSafePath] of the caller's directory; and without
    a usable [logDirectory] the directory used for the files is the
    default log path joined with the logger's name, that is
    cwd/logs/logName. *)
Theorem C5_option_resolution (w : World) (d options : LoggerOptions)
    (o : Merged.t) :
  finalOptions w d options = Return o ->
  (forall k, isComputedKey k = false ->
     Merged.getProperty o k
     = match getProperty options k with
       | Absent => getProperty d k
       | mine => mine
       end)
  /\ Merged.logName o
     = match read (logName options) with Some n => n | None => "app" end
  /\ Merged.logDirectory o
     = match read (logDirectory options) with
       | None => getDefaultLogPath w
       | Some dir => if (dir =? "")%string then getDefaultLogPath w
                     else createSafePath w dir
       end
  /\ getDefaultLogPath w = joinSafePaths w [createSafePath w (cwd w); "logs"]
  /\ (truthyString (read (logDirectory options)) = false ->
      logDir w o = joinSafePaths w [getDefaultLogPath w; Merged.logName o])
  /\ (isPlainAbsolute (cwd w) = true ->
      getDefaultLogPath w = cwd w ++ "/logs"
      /\ (truthyString (read (logDirectory options)) = false ->
          plain (Merged.logName o) = true ->
          logDir w o = cwd w ++ "/logs/" ++ Merged.logName o)).
Proof.
  intros Ho.
  destruct (finalOptions_computed w d options o Ho) as (Hn & Hd & _).
  assert (Hdef : truthyString (read (logDirectory options)) = false ->
                 logDir w o
                 = joinSafePaths w [getDefaultLogPath w; Merged.logName o]).
  { intros Ht. unfold logDir.
    now rewrite Hd, (safeLogDirectory_default w options Ht). }
  split; [|split; [|split; [|split; [|split]]]].
  - intros k Hk. rewrite (finalOptions_property w d options o k Ho Hk).
    unfold spread. destruct (getProperty options k); reflexivity.
  - exact Hn.
  - rewrite Hd. unfold safeLogDirectory.
    destruct (read (logDirectory options)) as [dir|]; [|reflexivity].
    destruct (dir =? "")%string; reflexivity.
  - reflexivity.
  - exact Hdef.
  - intros Hcwd.
    destruct (isPlainAbsolute_spec _ Hcwd) as [xs Hxs].
    assert (Hlogs : getDefaultLogPath w = cwd w ++ "/logs").
    { unfold getDefaultLogPath.
      rewrite (createSafePath_fix w (cwd w) (PlainAbs_normal _ _ Hxs)).
      now apply (joinSafePaths_plain w (cwd w) "logs" xs). }
    split; [exact Hlogs|].
    intros Ht Hp. rewrite (Hdef Ht), Hlogs.
    transitivity ((cwd w ++ "/logs") ++ "/" ++ Merged.logName o).
    + apply (joinSafePaths_plain w (cwd w ++ "/logs") (Merged.logName o)
               (xs ++ ["logs"])); [|assumption].
      now apply (PlainAbs_snoc (cwd w) xs "logs").
    + now rewrite sapp_assoc.
Qed.

Lemma C5_option_resolution_witness :
  exists o,
    finalOptions (demoWorld (Some "production")) (defaultOptions production)
      (withLevel (Value warn)) = Return o
    /\ Merged.getProperty o K_level = Value (VLevel warn)
    /\ Merged.getProperty o K_maxFiles = Value (VNumber 10)
    /\ Merged.logName o = "app"
    /\ Merged.logDirectory o = "/srv/app/logs"
    /\ logDir (demoWorld (Some "production")) o = "/srv/app/logs/app".
Proof.
  eexists. split; [vm_compute; reflexivity|].
  match goal with
  | |- Merged.getProperty ?o _ = _ /\ _ =>
      destruct (C5_option_resolution (demoWorld (Some "production"))
                  (defaultOptions production) (withLevel (Value warn)) o
                  eq_refl)
        as (Hmerge & Hname & Hdir & _ & _ & Hplain)
  end.
  split; [exact (Hmerge K_level eq_refl)|].
  split; [exact (Hmerge K_maxFiles eq_refl)|].
  split; [exact Hname|].
  destruct (Hplain eq_refl) as (Hlogs & Hlit).
  split; [rewrite Hdir; exact Hlogs|].
  exact (Hlit eq_refl eq_refl).
Defined.

(** C5 as stated fails: a caller who supplies the empty string as
    [logDirectory] does not get [createSafePath] of it (the working
    directory) but the default log path. *)
Lemma C5_counterexample_empty_directory :
  exists o,
    finalOptions (demoWorld (Some "test")) (defaultOptions test)
      (withLogDirectory (Value "") Absent) = Return o
    /\ logDirectory (withLogDirectory (Value "") Absent) = Value ""
    /\ Merged.logDirectory o = "/srv/app/logs"
    /\ createSafePath (demoWorld (Some "test")) "" = "/srv/app"
    /\ Merged.logDirectory o <> createSafePath (demoWorld (Some "test")) "".
Proof.
  eexists. split; [vm_compute; reflexivity|].
  split; [reflexivity|]. split; [reflexivity|]. split; [reflexivity|].
  vm_compute. discriminate.
Qed.




Lemma C10_explicit_undefined_wins_witness :
  exists o,
    finalOptions (demoWorld (Some "development")) (defaultOptions development)
      (withLevel Undefined) = Return o
    /\ getProperty (defaultOptions development) K_level = Value (VLevel debug)
    /\ Merged.getProperty o K_level = Undefined.
Proof.
  eexists. split; [vm_compute; reflexivity|]. split; [reflexivity|].
  apply (C10_explicit_undefined_wins (demoWorld (Some "development"))
           (defaultOptions development) (withLevel Undefined) _ K_level);
    reflexivity.
Defined.

(** C8. With prettyPrint and console logging on and no custom format,
    the first transport is the console with the factory's console format;
    a string message that starts with an opening brace and parses is
    printed as [< wow k1 such v1, k2 such v2, ... >] over the entries of
    the parsed object, keys and values rendered by JSON.stringify, then
    colorized if colorize is on; a string message that does not start
    with a brace, or does not parse, is printed unchanged (colorized if
    colorize is on).  For the message of the test, whose single entry is
    test/value, the line printed is the text of the test, and contains it
    whenever colorizing keeps the text it wraps. *)
Theorem C8_pretty_console (E : Engine) (w : World) (o : Merged.t)
    (l : LogLevel) :
  truthy (read (Merged.prettyPrint o)) = true ->
  truthy (read (Merged.enableConsoleLogging o)) = true ->
  read (Merged.customFormat o) = None ->
  let paint := fun s : string =>
    if truthy (read (Merged.colorize o)) then colorizer E l s else s in
  let line := fun m : string =>
    consoleLine E (winston_createLogger w o) (consoleFormat o) l (MString m) in
  hd_error (transports w o) = Some (winston.Console (consoleFormat o))
  /\ (forall m parsed,
        Js.startsWith m "{" = true -> JSON_parse E m = Some parsed ->
        line m = Some (paint (wow E parsed))
        /\ wow E parsed
           = "< wow "
             ++ Js.join ", "
                  (map (fun kv => JSON_stringify_key E (fst kv) ++ " such "
                                  ++ JSON_stringify E (snd kv))
                       (Object_entries E parsed))
             ++ " >")
  /\ (forall m,
        Js.startsWith m "{" = false \/ JSON_parse E m = None ->
        line m = Some (paint m))
  /\ (forall parsed v,
        JSON_parse E testMessage = Some parsed ->
        Object_entries E parsed = [("test", v)] ->
        JSON_stringify_key E "test" = quoted "test" ->
        JSON_stringify E v = quoted "value" ->
        line testMessage = Some (paint wowText)
        /\ (truthy (read (Merged.colorize o)) = false
            \/ Js.Includes (colorizer E l wowText) wowText ->
            exists out,
              line testMessage = Some out /\ Js.Includes out wowText)).
Proof.
  intros Hpretty Hconsole Hcustom paint line.
  assert (Hline : forall m,
            line m
            = Some (paint (String_ (message
                     (prettyConsoleFormat E
                        (transform E winston.simple (newInfo l (MString m)))))))).
  { intros m. unfold line, consoleLine, consoleFormat, paint.
    cbn [winston.loggerFormat winston_createLogger winston_createLoggerWith].
    rewrite Hcustom, Hpretty. cbn [orFormat].
    destruct (truthy (read (Merged.colorize o)));
      cbn [transform setMESSAGE MESSAGE message LEVEL];
      rewrite ?prettyConsoleFormat_LEVEL; reflexivity. }
  assert (Hwow : forall m parsed,
            Js.startsWith m "{" = true -> JSON_parse E m = Some parsed ->
            line m = Some (paint (wow E parsed))).
  { intros m parsed Hs Hp. rewrite Hline. unfold prettyConsoleFormat.
    cbn [transform setMESSAGE message newInfo]. now rewrite Hs, Hp. }
  split; [|split; [|split]].
  - rewrite transports_sinks. unfold sinks, consoleSinks, ConsoleSink.
    now rewrite Hconsole, Hcustom.
  - intros m parsed Hs Hp. split; [now apply Hwow|].
    unfold wow. do 3 f_equal. apply map_ext. now intros [k v].
  - intros m Hm. rewrite Hline. unfold prettyConsoleFormat.
    cbn [transform setMESSAGE message newInfo].
    destruct Hm as [Hs|Hp].
    + now rewrite Hs.
    + rewrite Hp. now destruct (Js.startsWith m "{").
  - intros parsed v Hp He Hk Hv.
    assert (Htest : line testMessage = Some (paint wowText)).
    { rewrite (Hwow testMessage parsed eq_refl Hp).
      unfold wow. rewrite He. cbn [map Js.join]. now rewrite Hk, Hv. }
    split; [exact Htest|].
    intros Hc. exists (paint wowText). split; [exact Htest|].
    unfold paint. destruct (truthy (read (Merged.colorize o))).
    + destruct Hc as [Hc|Hc]; [discriminate | exact Hc].
    + exists "", "". now rewrite sapp_nil_r.
Qed.

Lemma C8_pretty_console_witness :
  exists o,
    finalOptions (demoWorld None) (defaultOptions development) emptyOptions
    = Return o
    /\ hd_error (transports (demoWorld None) o)
       = Some (winston.Console (consoleFormat o))
    /\ consoleLine Toy.engine (winston_createLogger (demoWorld None) o)
         (consoleFormat o) info (MString testMessage)
       = Some (Toy.green wowText)
    /\ consoleLine Toy.engine (winston_createLogger (demoWorld None) o)
         (consoleFormat o) info (MString "Application started")
       = Some (Toy.green "Application started").
Proof.
  eexists. split; [vm_compute; reflexivity|].
  match goal with
  | |- hd_error (transports _ ?o) = _ /\ _ =>
      destruct (C8_pretty_console Toy.engine (demoWorld None) o info
                  eq_refl eq_refl eq_refl)
        as (Hhd & _ & Hplain & Htest)
  end.
  split; [exact Hhd|]. split.
  - exact (proj1 (Htest (Toy.JObj [("test", "value")]) (Toy.JStr "value")
                    eq_refl eq_refl eq_refl eq_refl)).
  - exact (Hplain "Application started" (or_introl eq_refl)).
Defined.


(** *** The factory on the inputs of the test suite *)

Example test_production_rotates :
  exists t lg,
    createLogger (demoWorld (Some "production"))
      (withLogDirectory (Value "/tmp/test-logs") Absent) = (t, Return lg)
    /\ map filenameOf (winston.transports lg)
       = [ Some "/tmp/test-logs/app/app-%DATE%.log";
           Some "/tmp/test-logs/app/app-error.log";
           Some "/tmp/test-logs/app/app-warn.log" ]
    /\ winston.level lg = info.
Proof.
  eexists. eexists. split; [vm_compute; reflexivity|].
  split; reflexivity.
Qed.

Example test_invalid_environment :
  createLogger (demoWorld (Some "invalid"))
    (withLogDirectory (Value "/tmp/test-logs") Absent)
  = ([], Throw (Error "Invalid environment: invalid")).
Proof. reflexivity. Qed.

Example test_empty_logName :
  exists t lg,
    createLogger (demoWorld (Some "test"))
      (withLogDirectory (Value "/tmp/test-logs") (Value "")) = (t, Return lg)
    /\ t = [MkdirSync "/tmp/test-logs" true 448]
    /\ map filenameOf (winston.transports lg)
       = [ Some "/tmp/test-logs-All.log";
           Some "/tmp/test-logs-error.log";
           Some "/tmp/test-logs-warn.log" ].
Proof.
  eexists. eexists. split; [vm_compute; reflexivity|].
  split; reflexivity.
Qed.

Example test_directory_creation_fails :
  createLogger
    {| NODE_ENV := Some "test"; cwd := "/srv/app"; cwd_absolute := eq_refl;
       existsSync := fun _ => false;
       mkdirSync := fun _ => Some (Error "EACCES: permission denied");
       construct := fun _ => None |}
    emptyOptions
  = ([ MkdirSync "/srv/app/logs/app" true 448;
       ConsoleError
         "Failed to create log directory: EACCES: permission denied" ],
     Throw (Error "EACCES: permission denied")).
Proof. reflexivity. Qed.

(** A file name the rotating-file constructor rejects: the exception of
    the constructor leaves [createLogger] after the directory was
    created, and nothing is logged about it. *)
Example test_invalid_file_name :
  createLogger pickyWorld (rotatingNamed "a:b")
  = ([ warnNoEnv; MkdirSync "/srv/app/logs/a:b" true 448 ],
     Throw (Error "Your path or filename contain an invalid character.")).
Proof. reflexivity. Qed.


End Claims.

(* ================================================================== *)
(** ** Further properties of the code *)
(* ================================================================== *)

Module Extras.
Import Spec path Segments NormalForm PathTheory MachineTheory
       NormalizeTheory WrapperTheory UtilsTheory ComposeTheory FactoryTheory
       SinkTheory.

(** *** [tryCatchWrapper.ts] *)

(** X1. Whenever [tryCatchSync] returns, its result is well formed: either
    [success] is true, the operation returned, [data] is its value and
    [error] is null; or [success] is false, the operation threw, [data]
    is null and [error] is set. *)
Theorem X1_tryCatchSync_result_shape {T E : Type} (operation : completion T)
    (errorHandler : option (Exception -> completion E))
    (r : TryCatch.Result T (TryCatch.Handled E)) :
  TryCatch.tryCatchSync operation errorHandler = Return r ->
  (TryCatch.success r = true
   /\ exists d, operation = Return d
                /\ TryCatch.data r = Some d /\ TryCatch.error r = None)
  \/ (TryCatch.success r = false
      /\ TryCatch.data r = None
      /\ exists thrown handled,
           operation = Throw thrown /\ TryCatch.error r = Some handled).
Proof.
  unfold TryCatch.tryCatchSync. intros H.
  destruct operation as [d|thrown].
  - inversion H; subst. left. split; [reflexivity|]. now exists d.
  - right. destruct errorHandler as [handler|].
    + destruct (handler thrown) as [h|x]; [|discriminate].
      inversion H; subst. simpl. repeat split. now exists thrown, (inr h).
    + destruct (TryCatch.asError thrown) as [e|x]; [|discriminate].
      inversion H; subst. simpl. repeat split. now exists thrown, (inl e).
Qed.

Lemma X1_tryCatchSync_result_shape_witness :
  exists r : TryCatch.Result string (TryCatch.Handled unit),
    TryCatch.tryCatchSync (Throw (Thrown "string error")) None = Return r
    /\ TryCatch.success r = false
    /\ TryCatch.data r = None
    /\ exists handled, TryCatch.error r = Some handled.
Proof.
  eexists. split; [reflexivity|].
  destruct (X1_tryCatchSync_result_shape
              (@Throw string (Thrown "string error"))
              (@None (Exception -> completion unit)) _ eq_refl)
    as [[H _] | (Hs & Hd & thrown & handled & _ & He)].
  - discriminate H.
  - split; [exact Hs|]. split; [exact Hd|]. now exists handled.
Defined.

(** X2. Without an [errorHandler], what [tryCatchSync] does with a thrown
    value depends on its conversion alone.  When the value is an [Error],
    or [String] renders it, the wrapper returns a failure whose [error] is
    an [Error] carrying that message (an [Error] passes unchanged).  When
    the conversion throws on the value, the wrapper returns nothing: it
    throws what the conversion threw. *)
Theorem X2_tryCatchSync_default_conversion {T E : Type}
    (operation : completion T) (thrown : Exception) :
  operation = Throw thrown ->
  (forall m, errorMessageOf thrown = Return m ->
     TryCatch.tryCatchSync operation (@None (Exception -> completion E))
     = Return {| TryCatch.success := false; TryCatch.data := None;
                 TryCatch.error := Some (inl (Error m)) |})
  /\ (forall raised, errorMessageOf thrown = Throw raised ->
       TryCatch.tryCatchSync operation (@None (Exception -> completion E))
       = Throw raised)
  /\ (forall m, thrown = Error m -> TryCatch.asError thrown = Return thrown).
Proof.
  intros ->. unfold TryCatch.tryCatchSync.
  split; [|split].
  - intros m Hm. destruct thrown; simpl in *; inversion Hm; reflexivity.
  - intros raised Hr. destruct thrown; simpl in *; inversion Hr; reflexivity.
  - intros m ->. reflexivity.
Qed.

Lemma X2_tryCatchSync_default_conversion_witness :
  TryCatch.tryCatchSync (@Throw string (Thrown "string error"))
    (@None (Exception -> completion unit))
  = Return {| TryCatch.success := false; TryCatch.data := None;
              TryCatch.error := Some (inl (Error "string error")) |}
  /\ TryCatch.tryCatchSync
       (@Throw string
          (Unprintable (Error "Cannot convert object to primitive value")))
       (@None (Exception -> completion unit))
     = Throw (Error "Cannot convert object to primitive value").
Proof.
  split.
  - exact (proj1 (@X2_tryCatchSync_default_conversion string unit
                    (Throw (Thrown "string error")) (Thrown "string error")
                    eq_refl) "string error" eq_refl).
  - exact (proj1 (proj2 (@X2_tryCatchSync_default_conversion string unit
                    (Throw (Unprintable
                              (Error "Cannot convert object to primitive value")))
                    (Unprintable
                       (Error "Cannot convert object to primitive value"))
                    eq_refl))
             (Error "Cannot convert object to primitive value") eq_refl).
Defined.

(** X3. [tryCatchSync] itself throws in exactly two situations, both
    after the operation threw: an [errorHandler] was given and threw, and
    the exception is then the handler's; or none was given and the
    conversion to an [Error] threw on the value caught, and the exception
    is then the one of the conversion. *)
Theorem X3_tryCatchSync_throws_iff {T E : Type} (operation : completion T)
    (errorHandler : option (Exception -> completion E)) (x : Exception) :
  TryCatch.tryCatchSync operation errorHandler = Throw x
  <-> exists thrown,
        operation = Throw thrown
        /\ ((exists handler,
               errorHandler = Some handler /\ handler thrown = Throw x)
            \/ (errorHandler = None /\ thrown = Unprintable x)).
Proof.
  unfold TryCatch.tryCatchSync. split.
  - intros H. destruct operation as [d|thrown]; [discriminate|].
    exists thrown. split; [reflexivity|].
    destruct errorHandler as [handler|].
    + left. exists handler. split; [reflexivity|].
      destruct (handler thrown) as [h|y]; [discriminate|].
      simpl in H. congruence.
    + right. split; [reflexivity|].
      destruct thrown; simpl in H; try discriminate. congruence.
  - intros (thrown & -> & [(handler & -> & Hh) | (-> & ->)]).
    + now rewrite Hh.
    + reflexivity.
Qed.

Lemma X3_tryCatchSync_throws_iff_witness :
  TryCatch.tryCatchSync (@Throw string (Error "Original error"))
    (Some (fun _ : Exception => @Throw unit (Error "handler failed")))
  = Throw (Error "handler failed").
Proof.
  apply (proj2 (X3_tryCatchSync_throws_iff _ _ _)).
  exists (Error "Original error"). split; [reflexivity|]. left.
  exists (fun _ : Exception => @Throw unit (Error "handler failed")).
  split; reflexivity.
Defined.

(** X4. [tryCatch] is [tryCatchSync] on the settled operation: an
    operation that throws at once and one whose promise rejects are
    treated alike, a fulfilled promise like a returned value; the promise
    of [tryCatch] stays pending exactly when the operation's promise
    does, and it rejects exactly when [tryCatchSync] would throw on the
    value the operation threw or rejected with. *)
Theorem X4_tryCatch_agrees_with_sync {T E : Type}
    (operation : completion (TryCatch.Promise T))
    (errorHandler : option (Exception -> completion E)) :
  (forall d, operation = Return (TryCatch.Fulfilled d) ->
     TryCatch.tryCatch operation errorHandler
     = TryCatch.promiseOf (TryCatch.tryCatchSync (Return d) errorHandler))
  /\ (forall err,
        operation = Throw err \/ operation = Return (TryCatch.Rejected err) ->
        TryCatch.tryCatch operation errorHandler
        = TryCatch.promiseOf (TryCatch.tryCatchSync (Throw err) errorHandler))
  /\ (TryCatch.tryCatch operation errorHandler = TryCatch.Pending
      <-> operation = Return TryCatch.Pending)
  /\ (forall x,
        TryCatch.tryCatch operation errorHandler = TryCatch.Rejected x
        <-> exists err,
              (operation = Throw err
               \/ operation = Return (TryCatch.Rejected err))
              /\ TryCatch.tryCatchSync (@Throw T err) errorHandler = Throw x).
Proof.
  assert (Hsettled : forall err,
             operation = Throw err
             \/ operation = Return (TryCatch.Rejected err) ->
             TryCatch.tryCatch operation errorHandler
             = TryCatch.promiseOf
                 (TryCatch.tryCatchSync (@Throw T err) errorHandler)).
  { intros err [-> | ->]; reflexivity. }
  split; [|split; [exact Hsettled|split]].
  - intros d ->. reflexivity.
  - split.
    + destruct operation as [[d|err|]|err]; try reflexivity;
        [discriminate| |];
        (rewrite (Hsettled err) by (auto);
         destruct (TryCatch.tryCatchSync (@Throw T err) errorHandler);
         discriminate).
    + intros ->. reflexivity.
  - intros x. split.
    + destruct operation as [[d|err|]|err]; try discriminate;
        (rewrite (Hsettled err) by auto; intros H; exists err;
         split; [auto|];
         destruct (TryCatch.tryCatchSync (@Throw T err) errorHandler);
         [discriminate | simpl in H; congruence]).
    + intros (err & Hop & Hs). rewrite (Hsettled err Hop), Hs. reflexivity.
Qed.

Lemma X4_tryCatch_agrees_with_sync_witness :
  TryCatch.tryCatch
    (Return (@TryCatch.Rejected string (Thrown "string error")))
    (@None (Exception -> completion unit))
  = TryCatch.promiseOf
      (TryCatch.tryCatchSync (@Throw string (Thrown "string error"))
         (@None (Exception -> completion unit))).
Proof.
  apply (proj1 (proj2 (X4_tryCatch_agrees_with_sync
           (Return (@TryCatch.Rejected string (Thrown "string error")))
           (@None (Exception -> completion unit))))).
  right. reflexivity.
Defined.

(** *** [utils.ts] *)

(** X5. [MB n] throws the negative-size error exactly when n is
    negative; and on the non-negative integer sizes whose byte count is a
    finite number (below 2 ^ 1004) it is strictly increasing, so distinct
    sizes in megabytes give distinct byte counts there. *)
Theorem X5_MB_negative_and_monotone (n : Z) :
  (MB n = Throw (Error "Bytes cannot be negative") <-> (n < 0)%Z)
  /\ (forall m, (0 <= n < m)%Z -> finiteMB m = true ->
        exists a b, MB n = Return a /\ MB m = Return b /\ (a < b)%Z).
Proof.
  split.
  - unfold MB, createBytes.
    destruct (Z.ltb_spec (n * 1024 * 1024) 0); split; intros H';
      try reflexivity; try lia; discriminate.
  - intros m H _. exists (megabytes n), (megabytes m).
    rewrite !MB_nonneg by lia. repeat split. unfold megabytes. lia.
Qed.

Lemma X5_MB_negative_and_monotone_witness :
  MB (-1) = Throw (Error "Bytes cannot be negative")
  /\ exists a b, MB 1 = Return a /\ MB 10 = Return b /\ (a < b)%Z.
Proof.
  split.
  - apply (proj1 (X5_MB_negative_and_monotone (-1))). lia.
  - apply (proj2 (X5_MB_negative_and_monotone 1) 10%Z); [lia | reflexivity].
Defined.

(** X6. Every path constructor of [utils.ts] returns a validated path:
    absolute, made of ordinary segments, and left unchanged by
    [createSafePath]; so joining or suffixing validated paths gives
    validated paths again. *)
Theorem X6_safe_path_invariant (w : World) (paths : list string)
    (base suffix : string) :
  let validated r := isNormalAbsolute r = true /\ createSafePath w r = r in
  validated (joinSafePaths w paths)
  /\ validated (createSafePathWithSuffix w base suffix)
  /\ validated (getDefaultLogPath w).
Proof.
  assert (H : forall x, isNormalAbsolute (createSafePath w x) = true
                        /\ createSafePath w (createSafePath w x)
                           = createSafePath w x).
  { intros x. pose proof (createSafePath_normal w x) as HN.
    split; [now apply NormalAbs_bool | now apply createSafePath_fix]. }
  cbv zeta. repeat split; apply H.
Qed.

Lemma joinArgs_filter (paths : list string) (acc : option string) :
  joinArgs acc (filter (fun s => negb (s =? "")%string) paths)
  = joinArgs acc paths.
Proof.
  revert acc. induction paths as [|p paths IH]; intros acc; [reflexivity|].
  simpl. destruct p as [|c p']; simpl; [apply IH|]. apply IH.
Qed.

(** X7. [joinSafePaths] ignores empty segments, and on a single segment
    it is [createSafePath]. *)
Theorem X7_joinSafePaths_empty_segments (w : World) (paths : list string)
    (a : string) :
  joinSafePaths w (filter (fun s => negb (s =? "")%string) paths)
  = joinSafePaths w paths
  /\ joinSafePaths w [a] = createSafePath w a.
Proof.
  split.
  - unfold joinSafePaths, path.join. rewrite !map_id.
    now rewrite joinArgs_filter.
  - unfold joinSafePaths, path.join. simpl map. simpl joinArgs.
    destruct a as [|c a']; [reflexivity|].
    simpl (0 <? Js.len _). cbv iota. apply createSafePath_normalize.
Qed.

Lemma joinSafePaths_three (w : World) (a b c : string) :
  a <> "" -> b <> "" -> c <> "" ->
  joinSafePaths w [a; b; c]
  = createSafePath w ((a ++ String "/" b) ++ String "/" c).
Proof.
  intros Ha Hb Hc. unfold joinSafePaths, path.join. simpl map.
  simpl joinArgs. rewrite (len_pos a Ha), (len_pos b Hb), (len_pos c Hc).
  apply createSafePath_normalize.
Qed.

Lemma joinSafePaths_skip_middle (w : World) (a c : string) :
  joinSafePaths w [a; ""; c] = joinSafePaths w [a; c].
Proof. unfold joinSafePaths, path.join. reflexivity. Qed.

Lemma joinSafePaths_skip_last (w : World) (a b : string) :
  joinSafePaths w [a; b; ""] = joinSafePaths w [a; b].
Proof.
  unfold joinSafePaths, path.join. simpl map. simpl joinArgs.
  destruct (0 <? Js.len a), (0 <? Js.len b); reflexivity.
Qed.

Lemma stack_of_absolute (w : World) (q : string) :
  firstIsSlash q = true ->
  fold_left (segStep false) (segments (createSafePath w q)) []
  = fold_left (segStep false) (segments q) [].
Proof.
  intros H. rewrite stack_of_createSafePath. unfold absStack. now rewrite H.
Qed.

Lemma join_resolved_left (w : World) (q c : string) :
  firstIsSlash q = true -> c <> "" ->
  joinSafePaths w (@cons string (createSafePath w q) [c])
  = createSafePath w (q ++ String "/" c).
Proof.
  intros Hq Hc.
  rewrite (joinSafePaths_two w _ c (createSafePath_nonempty w q) Hc).
  apply join_depends_on_stack;
    [apply firstIsSlash_createSafePath | assumption | assumption |].
  now apply stack_of_absolute.
Qed.

(** X8. Joining in two steps from an absolute first segment is joining
    in one step: [joinSafePaths(joinSafePaths(a, b), c)] equals
    [joinSafePaths(a, b, c)]; this is what ties the log directory and the
    log file paths of the factory together. *)
Theorem X8_joinSafePaths_nested (w : World) (a b c : string) :
  firstIsSlash a = true ->
  joinSafePaths w [joinSafePaths w [a; b]; c] = joinSafePaths w [a; b; c].
Proof.
  intros Ha. unfold SafePath.
  assert (Hne : a <> "") by (destruct a; [discriminate | discriminate]).
  destruct (String.eqb_spec c "") as [->|Hc].
  - rewrite joinSafePaths_empty_r, joinSafePaths_skip_last.
    apply createSafePath_fix, createSafePath_normal.
  - destruct (String.eqb_spec b "") as [->|Hb].
    + rewrite joinSafePaths_empty_r, joinSafePaths_skip_middle.
      rewrite (join_resolved_left w a c Ha Hc).
      now rewrite (joinSafePaths_two w a c Hne Hc).
    + rewrite (joinSafePaths_two w a b Hne Hb).
      rewrite (joinSafePaths_three w a b c Hne Hb Hc).
      apply join_resolved_left; [|assumption].
      destruct a; [discriminate | exact Ha].
Qed.

Lemma X8_joinSafePaths_nested_witness :
  joinSafePaths (demoWorld None)
    [joinSafePaths (demoWorld None) ["/var/log/"; "../run"]; "svc/"]
  = joinSafePaths (demoWorld None) ["/var/log/"; "../run"; "svc/"].
Proof.
  apply (X8_joinSafePaths_nested (demoWorld None) "/var/log/" "../run" "svc/").
  reflexivity.
Defined.

(** X9. A trailing slash survives [createSafePath] only on absolute
    input: the result ends with a slash exactly when it is the root, or
    when the input was absolute and ended with a slash.  So a relative
    "logs/" gives the same path as "logs", while "/logs/" and "/logs"
    differ. *)
Theorem X9_createSafePath_trailing_slash (w : World) (x : string) :
  lastIsSlash (createSafePath w x)
  = (createSafePath w x =? "/")%string || (firstIsSlash x && lastIsSlash x).
Proof.
  destruct (firstIsSlash x) eqn:Hx.
  - rewrite (createSafePath_absolute w x Hx).
    rewrite normalize_abs_unfold by assumption.
    rewrite normalizeString_segments.
    set (A := fold_left (segStep false) (segments x) []).
    assert (HA : plainList A)
      by (apply fold_false_plain; [apply segments_noSlash | constructor]).
    destruct (Js.len (render A) =? 0) eqn:El; [reflexivity|].
    assert (HAne : rev A <> []).
    { intros C. unfold render in El. rewrite C in El. discriminate. }
    assert (Hbody : render A <> "").
    { intros C. rewrite C in El. discriminate. }
    simpl andb. destruct (lastIsSlash x).
    + rewrite orb_true_r.
      change (String "/" (render A ++ "/")) with (String "/" (render A) ++ "/").
      apply lastIsSlash_slash.
    + rewrite orb_false_r. unfold render.
      rewrite lastIsSlash_join by (try assumption; now apply plainList_rev).
      symmetry. apply String.eqb_neq. intros C. inversion C as [C'].
      now apply Hbody.
  - rewrite (createSafePath_relative w x Hx). simpl andb.
    rewrite orb_false_r.
    assert (HA : plainList (absStack w x)).
    { unfold absStack. rewrite Hx.
      apply fold_false_plain; [apply segments_noSlash|].
      unfold cwdStack.
      apply fold_false_plain; [apply segments_noSlash | constructor]. }
    destruct (absStack w x) as [|s A'] eqn:EA; [reflexivity|].
    unfold render.
    assert (HR : plainList (rev (s :: A'))) by now apply plainList_rev.
    assert (HRne : rev (s :: A') <> []).
    { simpl. destruct (rev A'); discriminate. }
    revert HR HRne. generalize (rev (s :: A')) as R. intros R HR HRne.
    rewrite lastIsSlash_join by assumption.
    symmetry. apply String.eqb_neq. intros C. inversion C as [C'].
    revert C'. now apply join_plain_nonempty.
Qed.

Lemma plain_suffix_any (n sfx : string) :
  plain n = true -> noSlash sfx = true -> plain (n ++ sfx) = true.
Proof.
  intros Hn Hs.
  destruct (plain_parts n Hn) as (H0 & H1 & H2 & HnS).
  unfold plain. rewrite (noSlash_app n sfx HnS Hs).
  destruct n as [|a [|b [|c n']]]; try discriminate.
  - (* one character, not a dot *)
    simpl in H1. destruct (Ascii.eqb_spec a ".") as [->|Ha]; [discriminate|].
    apply Ascii.eqb_neq in Ha.
    destruct sfx as [|s1 [|s2 sfx']]; simpl; rewrite ?Ha; reflexivity.
  - (* two characters, not two dots *)
    destruct sfx as [|s1 sfx'].
    + rewrite sapp_nil_r. now rewrite H0, H1, H2.
    + simpl. destruct (Ascii.eqb a "."); [|reflexivity].
      destruct (Ascii.eqb b "."); reflexivity.
  - simpl. destruct (Ascii.eqb a "."); [|reflexivity].
    destruct (Ascii.eqb b "."); reflexivity.
Qed.

Lemma suffix_concat (w : World) (base suffix : string) (xs : list string) :
  PlainAbs base xs -> noSlash suffix = true ->
  createSafePathWithSuffix w base suffix = base ++ suffix
  /\ exists ys, PlainAbs (base ++ suffix) ys.
Proof.
  intros (-> & Hne & Hxs) Hs.
  destruct (exists_last Hne) as (ys & n & ->).
  assert (Hn : plain n = true).
  { unfold plainList in Hxs. rewrite Forall_forall in Hxs.
    apply Hxs, in_or_app. right. now left. }
  assert (Hpl : PlainAbs (String "/" (Js.join "/" (ys ++ [n])) ++ suffix)
                  (ys ++ [(n ++ suffix)%string])).
  { split; [|split].
    - simpl. now rewrite join_snoc_suffix.
    - destruct ys; discriminate.
    - unfold plainList in *. apply Forall_app in Hxs as [Hys _].
      apply Forall_app. split; [assumption|].
      constructor; [now apply plain_suffix_any | constructor]. }
  split.
  - unfold createSafePathWithSuffix.
    apply createSafePath_fix. eapply PlainAbs_normal. exact Hpl.
  - eexists. exact Hpl.
Qed.

(** X10. On an absolute path of ordinary segments,
    [createSafePathWithSuffix] with a suffix that has no slash is plain
    concatenation, and the result is again such a path; with the empty
    suffix it returns the path itself. *)
Theorem X10_suffix_is_concatenation (w : World) (base suffix : string) :
  isPlainAbsolute base = true -> noSlash suffix = true ->
  createSafePathWithSuffix w base suffix = base ++ suffix
  /\ isPlainAbsolute (base ++ suffix) = true
  /\ createSafePathWithSuffix w base "" = base.
Proof.
  intros Hb Hs.
  destruct (isPlainAbsolute_spec _ Hb) as (xs & Hxs).
  destruct (suffix_concat w base suffix xs Hxs Hs) as (H1 & ys & Hys).
  destruct (suffix_concat w base "" xs Hxs eq_refl) as (H2 & _).
  split; [exact H1|]. split; [eapply PlainAbs_bool; exact Hys|].
  rewrite H2. apply sapp_nil_r.
Qed.

Lemma X10_suffix_is_concatenation_witness :
  createSafePathWithSuffix (demoWorld None) "/var/log/app" "-error.log"
  = "/var/log/app-error.log".
Proof.
  apply (proj1 (X10_suffix_is_concatenation (demoWorld None)
                  "/var/log/app" "-error.log" eq_refl eq_refl)).
Defined.

(** X11. An absolute input does not depend on the working directory:
    [createSafePath] is then [path.normalize].  A relative, non-empty
    input without a trailing slash is read below the working directory:
    it gives the same path as the working directory, a slash, and the
    input. *)
Theorem X11_createSafePath_relative_to_cwd (w : World) (x : string) :
  (firstIsSlash x = true -> createSafePath w x = path.normalize x)
  /\ (firstIsSlash x = false -> x <> "" -> lastIsSlash x = false ->
      createSafePath w x = createSafePath w (cwd w ++ "/" ++ x)).
Proof.
  split; [apply createSafePath_absolute|].
  intros Hrel Hne Hlast.
  rewrite (createSafePath_relative w x Hrel).
  change (cwd w ++ "/" ++ x) with (cwd w ++ String "/" x).
  assert (Habs : firstIsSlash (cwd w ++ String "/" x) = true).
  { pose proof (cwd_absolute w) as H.
    destruct (cwd w); [discriminate | exact H]. }
  assert (Hl : lastIsSlash (cwd w ++ String "/" x) = false).
  { rewrite (lastIsSlash_app (cwd w) (String "/" x)) by discriminate.
    change (String "/" x) with ("/" ++ x).
    rewrite (lastIsSlash_app "/" x Hne). exact Hlast. }
  rewrite (createSafePath_absolute w _ Habs).
  rewrite normalize_abs_unfold by assumption.
  rewrite normalizeString_segments, segments_app_slash, fold_left_app.
  rewrite Hl.
  unfold absStack, cwdStack. rewrite Hrel.
  set (A := fold_left (segStep false) (segments x)
              (fold_left (segStep false) (segments (cwd w)) [])).
  destruct (Js.len (render A) =? 0) eqn:El; [|reflexivity].
  apply Nat.eqb_eq, slen_zero in El. now rewrite El.
Qed.

Lemma X11_createSafePath_relative_to_cwd_witness :
  createSafePath (demoWorld None) "../shared/./logs"
  = createSafePath (demoWorld None) ("/srv/app" ++ "/" ++ "../shared/./logs").
Proof.
  apply (proj2 (X11_createSafePath_relative_to_cwd (demoWorld None)
                  "../shared/./logs"));
    [reflexivity | discriminate | reflexivity].
Defined.

(** *** [log-facotry.ts] *)

Lemma invalid_environment_is_set (w : World) :
  isValidEnvironment (orString (NODE_ENV w) "development") = false ->
  warnPart w = [].
Proof.
  unfold warnPart, orString, truthyString.
  destruct (NODE_ENV w) as [s|]; [|discriminate].
  destruct (s =? "")%string; [discriminate | reflexivity].
Qed.



Lemma same_cwd_createSafePath (w1 w2 : World) :
  cwd w1 = cwd w2 -> forall x, createSafePath w1 x = createSafePath w2 x.
Proof. intros H x. unfold createSafePath. now rewrite H. Qed.

Lemma same_cwd_safeLogDirectory (w1 w2 : World) (options : LoggerOptions) :
  cwd w1 = cwd w2 -> safeLogDirectory w1 options = safeLogDirectory w2 options.
Proof.
  intros H. pose proof (same_cwd_createSafePath w1 w2 H) as Hc.
  assert (Hd : getDefaultLogPath w1 = getDefaultLogPath w2).
  { unfold getDefaultLogPath, joinSafePaths. now rewrite H, !Hc. }
  unfold safeLogDirectory.
  destruct (read (logDirectory options)) as [dir|]; [|exact Hd].
  destruct (negb (dir =? "")%string); [apply Hc | exact Hd].
Qed.

Lemma same_cwd_finalOptions (w1 w2 : World) (d options : LoggerOptions) :
  cwd w1 = cwd w2 -> finalOptions w1 d options = finalOptions w2 d options.
Proof.
  intros H. unfold finalOptions.
  now rewrite (same_cwd_safeLogDirectory w1 w2 options H).
Qed.

Lemma same_cwd_createLogPath (w1 w2 : World) (o : Merged.t) :
  cwd w1 = cwd w2 ->
  forall suffix, createLogPath w1 o suffix = createLogPath w2 o suffix.
Proof.
  intros H suffix. pose proof (same_cwd_createSafePath w1 w2 H) as Hc.
  unfold createLogPath, logDir, createSafePathWithSuffix, joinSafePaths.
  now rewrite !Hc.
Qed.

Lemma same_cwd_logger (w1 w2 : World) (o : Merged.t) :
  cwd w1 = cwd w2 -> winston_createLogger w1 o = winston_createLogger w2 o.
Proof.
  intros H. pose proof (same_cwd_createLogPath w1 w2 o H) as Hc.
  assert (Ht : transports w1 o = transports w2 o).
  { rewrite !transports_sinks.
    unfold sinks, fileSinks, RotatedFile, CombinedFile, ErrorFile,
      WarningFile.
    now rewrite !Hc. }
  unfold winston_createLogger. now rewrite Ht.
Qed.

Lemma Environment_name_inj (a b : Environment) :
  Environment_name a = Environment_name b -> a = b.
Proof. destruct a, b; simpl; intros H; try reflexivity; discriminate. Qed.

(** X13. The logger [createLogger] returns does not depend on the state
    of the disk: two processes with the same NODE_ENV and the same working
    directory, given the same options, return the same logger whenever
    both return one, whatever [existsSync] and [mkdirSync] answer. *)
Theorem X13_logger_independent_of_disk (w1 w2 : World)
    (options : LoggerOptions) (t1 t2 : list Effect)
    (lg1 lg2 : winston.Logger) :
  NODE_ENV w1 = NODE_ENV w2 -> cwd w1 = cwd w2 ->
  createLogger w1 options = (t1, Return lg1) ->
  createLogger w2 options = (t2, Return lg2) ->
  lg1 = lg2.
Proof.
  intros Henv Hcwd H1 H2.
  destruct (createLogger_inv w1 options t1 lg1 H1) as (e1 & o1 & He1 & Ho1 & ->).
  destruct (createLogger_inv w2 options t2 lg2 H2) as (e2 & o2 & He2 & Ho2 & ->).
  rewrite Henv, He2 in He1. apply Environment_name_inj in He1. subst e2.
  rewrite (same_cwd_finalOptions w1 w2 _ options Hcwd), Ho2 in Ho1.
  inversion Ho1; subst o2.
  now apply same_cwd_logger.
Qed.

Lemma X13_logger_independent_of_disk_witness :
  exists t1 t2 lg,
    createLogger (demoWorld (Some "production")) emptyOptions
    = (t1, Return lg)
    /\ createLogger
         {| NODE_ENV := Some "production"; cwd := "/srv/app";
            cwd_absolute := eq_refl;
            existsSync := fun _ => true;
            mkdirSync := fun _ => Some (Error "EACCES");
            construct := fun _ => None |} emptyOptions
       = (t2, Return lg).
Proof.
  destruct (createLogger (demoWorld (Some "production")) emptyOptions)
    as [t1 [lg1|x]] eqn:Hrun1; [|vm_compute in Hrun1; discriminate].
  destruct (createLogger
              {| NODE_ENV := Some "production"; cwd := "/srv/app";
                 cwd_absolute := eq_refl;
                 existsSync := fun _ => true;
                 mkdirSync := fun _ => Some (Error "EACCES");
            construct := fun _ => None |} emptyOptions)
    as [t2 [lg2|x]] eqn:Hrun2; [|vm_compute in Hrun2; discriminate].
  exists t1, t2, lg1. split; [reflexivity|].
  pose proof (fun H1 H2 =>
                X13_logger_independent_of_disk
                  (demoWorld (Some "production"))
                  {| NODE_ENV := Some "production"; cwd := "/srv/app";
                     cwd_absolute := eq_refl;
                     existsSync := fun _ => true;
                     mkdirSync := fun _ => Some (Error "EACCES");
                     construct := fun _ => None |}
                  emptyOptions t1 t2 lg1 lg2 H1 H2 Hrun1 Hrun2) as Heq.
  rewrite (Heq eq_refl eq_refl). reflexivity.
Defined.

(** X14. The level of the returned logger is the caller's level when one
    is given, the environment's default level when the caller's options
    have no level property, and [info] when the caller passes that
    property as undefined. *)
Theorem X14_logger_level (w : World) (options : LoggerOptions)
    (t : list Effect) (lg : winston.Logger) :
  createLogger w options = (t, Return lg) ->
  exists e,
    orString (NODE_ENV w) "development" = Environment_name e
    /\ winston.level lg
       = match level options with
         | Value l => l
         | Undefined => info
         | Absent => row_level (environmentDefaults e)
         end.
Proof.
  intros H.
  destruct (createLogger_inv w options t lg H) as (e & o & He & Ho & ->).
  exists e. split; [assumption|].
  destruct (finalOptions_fields w _ options o Ho) as (Hl & _).
  cbn [winston.level winston_createLogger winston_createLoggerWith]. rewrite Hl.
  destruct (level options); [destruct e|..]; reflexivity.
Qed.

Lemma X14_logger_level_witness :
  exists t lg,
    createLogger (demoWorld (Some "development")) (withLevel Undefined)
    = (t, Return lg)
    /\ winston.level lg = info.
Proof.
  destruct (createLogger (demoWorld (Some "development")) (withLevel Undefined))
    as [t [lg|x]] eqn:Hrun; [|vm_compute in Hrun; discriminate].
  exists t, lg. split; [reflexivity|].
  destruct (X14_logger_level _ _ t lg Hrun) as (e & _ & Hl).
  exact Hl.
Defined.




Lemma wow_not_brace (E : Engine) (parsed : JsonValue E) :
  Js.startsWith (wow E parsed) "{" = false.
Proof. reflexivity. Qed.

(** X16. [prettyConsoleFormat] changes nothing but the message of a
    record, leaves a message that is not a string alone, and applying
    it a second time changes nothing: a rewritten message starts with
    an angle bracket, not a brace. *)
Theorem X16_pretty_idempotent (E : Engine) (i : Info) :
  prettyConsoleFormat E (prettyConsoleFormat E i) = prettyConsoleFormat E i
  /\ LEVEL (prettyConsoleFormat E i) = LEVEL i
  /\ levelText (prettyConsoleFormat E i) = levelText i
  /\ timestamp (prettyConsoleFormat E i) = timestamp i
  /\ MESSAGE (prettyConsoleFormat E i) = MESSAGE i
  /\ (forall r, message i = MOther r -> prettyConsoleFormat E i = i).
Proof.
  unfold prettyConsoleFormat.
  destruct (message i) as [m|r] eqn:Hm.
  - destruct (Js.startsWith m "{") eqn:Hs.
    + destruct (JSON_parse E m) as [parsed|] eqn:Hp.
      * cbn [message setMessage]. rewrite wow_not_brace.
        repeat split; try (intros r H; discriminate).
      * rewrite Hm, Hs, Hp. repeat split; try (intros r H; discriminate).
    + rewrite Hm, Hs. repeat split; try (intros r H; discriminate).
  - rewrite Hm. repeat split.
Qed.

(** X17. A custom format replaces the factory's console format and the
    logger's format alike: the console transport, when enabled, and the
    logger both carry it, whatever prettyPrint and colorize say, so a
    record printed on the console has gone through the custom format
    twice. *)
Theorem X17_custom_format (E : Engine) (w : World) (o : Merged.t)
    (f : winston.Format) (l : LogLevel) (m : Message) :
  read (Merged.customFormat o) = Some f ->
  winston.loggerFormat (winston_createLogger w o) = f
  /\ consoleSinks o
     = (if truthy (read (Merged.enableConsoleLogging o))
        then [winston.Console f] else [])
  /\ (truthy (read (Merged.enableConsoleLogging o)) = true ->
      hd_error (winston.transports (winston_createLogger w o))
      = Some (winston.Console f)
      /\ consoleLine E (winston_createLogger w o) f l m
         = MESSAGE (transform E f (transform E f (newInfo l m)))).
Proof.
  intros Hc. split; [|split].
  - cbn [winston.loggerFormat winston_createLogger winston_createLoggerWith]. now rewrite Hc.
  - unfold consoleSinks, ConsoleSink. now rewrite Hc.
  - intros Hon. split.
    + cbn [winston.transports winston_createLogger winston_createLoggerWith].
      rewrite transports_sinks. unfold sinks, consoleSinks, ConsoleSink.
      now rewrite Hon, Hc.
    + unfold consoleLine. cbn [winston.loggerFormat winston_createLogger winston_createLoggerWith].
      now rewrite Hc.
Qed.

Lemma X17_custom_format_witness :
  exists o,
    finalOptions (demoWorld None) (defaultOptions development)
      {| logName := Absent; level := Absent; logDirectory := Absent;
         enableFileLogging := Absent; maxFileSize := Absent;
         maxFiles := Absent; separateErrorLog := Absent;
         separateWarnLog := Absent; useDailyRotation := Absent;
         enableConsoleLogging := Absent; prettyPrint := Absent;
         colorize := Absent; timestampFormat := Absent; locale := Absent;
         silent := Absent; handleExceptions := Absent;
         handleRejections := Absent; customTransports := Absent;
         customFormat := Value winston.colorizeAll |} = Return o
    /\ hd_error (winston.transports (winston_createLogger (demoWorld None) o))
       = Some (winston.Console winston.colorizeAll)
    /\ consoleLine Toy.engine (winston_createLogger (demoWorld None) o)
         winston.colorizeAll info (MString "hi")
       = MESSAGE (transform Toy.engine winston.colorizeAll
                    (transform Toy.engine winston.colorizeAll
                       (newInfo info (MString "hi")))).
Proof.
  eexists. split; [vm_compute; reflexivity|].
  match goal with
  | |- hd_error (winston.transports (winston_createLogger _ ?o)) = _ /\ _ =>
      exact (proj2 (proj2
               (X17_custom_format Toy.engine (demoWorld None) o
                  winston.colorizeAll info (MString "hi") eq_refl)) eq_refl)
  end.
Defined.

(** The configuration resolved from the defaults of one environment
    passed as the options under another. *)
Lemma simple_options_resolved (w : World) (ambient env : Environment) :
  finalOptions w (defaultOptions ambient) (defaultOptions env)
  = Return
      {| Merged.logName := "app";
         Merged.level := level (defaultOptions env);
         Merged.logDirectory := getDefaultLogPath w;
         Merged.enableFileLogging := enableFileLogging (defaultOptions env);
         Merged.maxFileSize :=
           megabytes (row_maxSizeMB (environmentDefaults env));
         Merged.maxFiles := maxFiles (defaultOptions env);
         Merged.separateErrorLog := separateErrorLog (defaultOptions env);
         Merged.separateWarnLog := separateWarnLog (defaultOptions env);
         Merged.useDailyRotation := useDailyRotation (defaultOptions env);
         Merged.enableConsoleLogging :=
           enableConsoleLogging (defaultOptions env);
         Merged.prettyPrint := prettyPrint (defaultOptions env);
         Merged.colorize := colorize (defaultOptions env);
         Merged.timestampFormat := Absent;
         Merged.locale := Absent;
         Merged.silent := Absent;
         Merged.handleExceptions := Absent;
         Merged.handleRejections := Absent;
         Merged.customTransports := Absent;
         Merged.customFormat := Absent |}.
Proof. destruct ambient, env; reflexivity. Qed.

(** X18. [createSimpleLogger(env)] resolves to the table row of its
    argument, not of the ambient NODE_ENV: whatever recognized
    environment the process runs in, level, sink toggles and limits are
    those of [env], the name is "app" and the directory the default log
    path.  The ambient NODE_ENV still decides whether it runs at all: if
    it is unrecognized, [createSimpleLogger] throws even for a valid
    argument. *)
Theorem X18_createSimpleLogger (w : World) (env : Environment) :
  (forall ambient,
      orString (NODE_ENV w) "development" = Environment_name ambient ->
      exists o,
        finalOptions w (defaultOptions ambient) (defaultOptions env) = Return o
        /\ matchesRow o (environmentDefaults env)
        /\ Merged.logName o = "app"
        /\ Merged.logDirectory o = getDefaultLogPath w
        /\ forall t lg,
             createSimpleLogger w env = (t, Return lg) ->
             lg = winston_createLogger w o)
  /\ (isValidEnvironment (orString (NODE_ENV w) "development") = false ->
      createSimpleLogger w env
      = ([], Throw (Error ("Invalid environment: "
                           ++ orString (NODE_ENV w) "development")))).
Proof.
  split.
  - intros ambient Ha.
    destruct (finalOptions_total w (defaultOptions ambient) (defaultOptions env))
      as [o Ho].
    exists o. split; [assumption|].
    assert (Hrow : matchesRow o (environmentDefaults env)
                   /\ Merged.logName o = "app"
                   /\ Merged.logDirectory o = getDefaultLogPath w).
    { rewrite simple_options_resolved in Ho. inversion Ho; subst o.
      split; [|split; [|reflexivity]]; destruct env; repeat split. }
    destruct Hrow as (Hr & Hn & Hd).
    split; [assumption|]. split; [assumption|]. split; [assumption|].
    intros t lg Hrun. unfold createSimpleLogger in Hrun.
    destruct (createLogger_inv w _ t lg Hrun) as (e & o' & He & Ho' & ->).
    rewrite Ha in He. apply Environment_name_inj in He. subst e.
    rewrite Ho in Ho'. inversion Ho'. reflexivity.
  - intros Hv. unfold createSimpleLogger.
    rewrite (createLogger_invalid w _ Hv).
    now rewrite (invalid_environment_is_set w Hv).
Qed.

Lemma X18_createSimpleLogger_witness :
  exists o,
    finalOptions (demoWorld (Some "development")) (defaultOptions development)
      (defaultOptions production) = Return o
    /\ matchesRow o (environmentDefaults production)
    /\ createSimpleLogger (demoWorld (Some "staging")) production
       = ([], Throw (Error "Invalid environment: staging")).
Proof.
  destruct (proj1 (X18_createSimpleLogger (demoWorld (Some "development"))
                     production) development eq_refl)
    as (o & Ho & Hrow & _).
  exists o. split; [exact Ho|]. split; [exact Hrow|].
  exact (proj2 (X18_createSimpleLogger (demoWorld (Some "staging"))
                  production) eq_refl).
Defined.


Lemma X16_pretty_idempotent_witness :
  prettyConsoleFormat Toy.engine (newInfo info (MOther "42"))
  = newInfo info (MOther "42").
Proof.
  apply (proj2 (proj2 (proj2 (proj2 (proj2
           (X16_pretty_idempotent Toy.engine (newInfo info (MOther "42")))))))
         "42").
  reflexivity.
Defined.

Lemma NormalAbs_first (r : string) : NormalAbs r -> firstIsSlash r = true.
Proof. intros (xs & _ & [-> | [_ ->]]); reflexivity. Qed.

(** Joining one ordinary segment onto a validated path appends it. *)
Lemma join_normal_plain (w : World) (r n : string) :
  NormalAbs r -> plain n = true ->
  exists xs, PlainAbs (joinSafePaths w [r; n]) (xs ++ [n]).
Proof.
  intros HN Hn.
  pose proof (NormalAbs_first r HN) as Hr.
  assert (Hrne : r <> "") by (destruct r; [discriminate | discriminate]).
  pose proof (plain_nonempty n Hn) as Hnne.
  destruct (plain_parts n Hn) as (_ & _ & _ & HnS).
  destruct HN as (xs & Hxs & Hshape).
  exists xs.
  rewrite (joinSafePaths_two w r n Hrne Hnne).
  rewrite (createSafePath_abs_app w r n Hr Hnne). cbv zeta.
  assert (Hst : fold_left (segStep false) (segments r) [] = rev xs).
  { destruct (stack_of_join xs Hxs) as [H1 H2].
    destruct Hshape as [-> | [Hne ->]]; [exact H1 | exact (H2 Hne)]. }
  rewrite Hst, (segments_of_noSlash n HnS). cbn [fold_left].
  rewrite (segStep_plain false _ n Hn).
  rewrite (lastIsSlash_noSlash n HnS).
  unfold render. simpl rev. rewrite rev_involutive.
  assert (Hpl : plainList (xs ++ [n])).
  { unfold plainList in *. apply Forall_app. split; [assumption|].
    constructor; [assumption | constructor]. }
  assert (Hne : (xs ++ [n])%list <> []) by (destruct xs; discriminate).
  rewrite len_eq0_false by (now apply join_plain_nonempty).
  repeat split; assumption.
Qed.

Lemma safeLogDirectory_normal (w : World) (options : LoggerOptions) :
  NormalAbs (safeLogDirectory w options).
Proof.
  assert (Hd : NormalAbs (getDefaultLogPath w))
    by apply createSafePath_normal.
  unfold safeLogDirectory.
  destruct (read (logDirectory options)) as [dir|]; [|exact Hd].
  destruct (negb (dir =? "")%string); [apply createSafePath_normal | exact Hd].
Qed.

(** X19. Whatever directory the caller gives (relative, with dots, or
    none), when the logger's name is an ordinary path segment the
    directory [createLogger] ensures is an absolute path of ordinary
    segments that ends with the name, and every built-in log file lies
    directly inside it, named by the logger's name followed by the sink's
    suffix. *)
Theorem X19_files_inside_log_directory (w : World) (d options : LoggerOptions)
    (o : Merged.t) (suffix : string) :
  finalOptions w d options = Return o ->
  plain (Merged.logName o) = true ->
  noSlash suffix = true ->
  isPlainAbsolute (logDir w o) = true
  /\ (exists parent, logDir w o = parent ++ "/" ++ Merged.logName o)
  /\ createLogPath w o suffix
     = logDir w o ++ "/" ++ Merged.logName o ++ suffix.
Proof.
  intros Ho Hn Hs.
  destruct (finalOptions_computed w d options o Ho) as (_ & Hd & _).
  assert (HN : NormalAbs (Merged.logDirectory o)).
  { rewrite Hd. apply safeLogDirectory_normal. }
  destruct (join_normal_plain w _ _ HN Hn) as (xs & Hpl).
  change (PlainAbs (logDir w o) (xs ++ [Merged.logName o])) in Hpl.
  split; [eapply PlainAbs_bool; exact Hpl|]. split.
  - destruct Hpl as (E & _ & _). rewrite E.
    destruct xs as [|x xs'].
    + exists "". reflexivity.
    + exists (String "/" (Js.join "/" (x :: xs'))).
      rewrite join_snoc by discriminate. reflexivity.
  - unfold createLogPath.
    pose proof (joinSafePaths_plain w (logDir w o) (Merged.logName o) _ Hpl Hn)
      as Hj.
    pose proof (PlainAbs_snoc _ _ _ Hpl Hn) as Hpl2.
    unfold SafePath in *. rewrite Hj.
    destruct (suffix_concat w _ suffix _ Hpl2 Hs) as (-> & _).
    now rewrite !sapp_assoc.
Qed.

Lemma X19_files_inside_log_directory_witness :
  exists o,
    finalOptions (demoWorld (Some "test")) (defaultOptions test)
      (withLogDirectory (Value "../shared/./logs/") (Value "svc")) = Return o
    /\ createLogPath (demoWorld (Some "test")) o "-error.log"
       = logDir (demoWorld (Some "test")) o ++ "/" ++ Merged.logName o
         ++ "-error.log".
Proof.
  eexists. split; [vm_compute; reflexivity|].
  match goal with
  | |- createLogPath _ ?o _ = _ =>
      exact (proj2 (proj2
               (X19_files_inside_log_directory (demoWorld (Some "test"))
                  (defaultOptions test)
                  (withLogDirectory (Value "../shared/./logs/") (Value "svc"))
                  o "-error.log" eq_refl eq_refl eq_refl)))
  end.
Defined.

End Extras.
